(** * Posts router: post and tag consistency

    A shallow embedding of the posts router of the blogging backend
    (the Express router with the handlers for [/api/posts]) together with
    the parts of Mongoose and of JavaScript its handlers rely on.

    - The two collections the handlers touch are finite maps from [_id] to
      document ([gmap]); a handler is a function from the store and the
      request to the response and the store it leaves behind.
    - A string is a sequence of code units below U+0100, one character of
      a Rocq string each; on these [trim] and [toLowerCase] are the
      JavaScript functions of the same names.
    - The handlers run one at a time and the store always answers: the
      [catch] branches of the handlers are embedded on their own
      ([Catch.catch_response]), since what they send depends on the error
      and on [NODE_ENV] only. *)

From stdpp Require Import gmap strings list fin_maps pretty.
From Stdlib Require Import ZArith Ascii String.

Local Open Scope Z_scope.

(** ** JavaScript strings and arrays *)
Module Js.

(** ECMAScript white space and line terminators below U+0100: tab to
    carriage return, space, and the no-break space U+00A0. *)
Definition is_white_space (c : ascii) : bool :=
  let n := nat_of_ascii c in
  (n =? 32)%nat || ((9 <=? n)%nat && (n <=? 13)%nat) || (n =? 160)%nat.

Fixpoint trimStart (s : string) : string :=
  match s with
  | EmptyString => EmptyString
  | String c r => if is_white_space c then trimStart r else s
  end.

Fixpoint trimEnd (s : string) : string :=
  match s with
  | EmptyString => EmptyString
  | String c r =>
      match trimEnd r with
      | EmptyString => if is_white_space c then EmptyString else String c EmptyString
      | r' => String c r'
      end
  end.

(** [String.prototype.trim] *)
Definition trim (s : string) : string := trimEnd (trimStart s).

(** The lower case of a code unit below U+0100: A to Z, and U+00C0 to
    U+00DE but for the multiplication sign U+00D7, move up by 32. *)
Definition lower_char (c : ascii) : ascii :=
  let n := nat_of_ascii c in
  if ((65 <=? n)%nat && (n <=? 90)%nat)
     || ((192 <=? n)%nat && (n <=? 222)%nat && negb (n =? 215)%nat)
  then ascii_of_nat (n + 32) else c.

(** [String.prototype.toLowerCase] *)
Fixpoint toLowerCase (s : string) : string :=
  match s with
  | EmptyString => EmptyString
  | String c r => String (lower_char c) (toLowerCase r)
  end.

(** [s.split(sep)] for a one-character separator. *)
Fixpoint split (sep : ascii) (s : string) : list string :=
  match s with
  | EmptyString => [EmptyString]
  | String c r =>
      if bool_decide (c = sep) then EmptyString :: split sep r
      else match split sep r with
           | [] => [String c EmptyString]
           | w :: ws => String c w :: ws
           end
  end.

(** A string is truthy unless it is empty. *)
Definition truthy (s : string) : bool := negb (bool_decide (s = EmptyString)).

End Js.

(** ** Documents and collections *)

(** An [ObjectId] value. [ObjectId_toString] stands for the rendering of
    the twelve bytes as hexadecimal digits: the handlers only compare
    renderings, and this one is injective as that one is. *)
Definition ObjectId : Type := nat.

Definition ObjectId_toString (o : ObjectId) : string := pretty o.

(** Modelled from the spec: the Tag model (models/Tag is not among the
    sources): a unique name, stored as the handler passes it (lower-cased),
    and [postCount], 0 for a new tag. *)
Record Tag : Type := mkTag {
  tag_name : string;
  postCount : Z
}.

(** Modelled from the spec: the Post model (models/Post is not among the
    sources). The fields are the ones the handlers assign or read; a field
    of type [option] is a path that may be unset in the document. The
    counters start at 0. *)
Record Post : Type := mkPost {
  title : string;
  slug : string;
  content : string;
  excerpt : option string;
  coverImage : string;
  author : ObjectId;
  tags : list ObjectId;
  status : option string;
  seoTitle : option string;
  seoDescription : option string;
  featured : bool;
  viewCount : Z;
  likeCount : Z
}.

Record Store : Type := mkStore {
  posts : gmap ObjectId Post;
  tagsColl : gmap ObjectId Tag
}.

Module Mongo.

(** The [_id] of a newly constructed document: one no document of the
    collection has. *)
Definition newObjectId {A} (coll : gmap ObjectId A) : ObjectId := fresh (dom coll).

(** [Tag.findOne({ name })] *)
Definition Tag_findOne (coll : gmap ObjectId Tag) (name : string) : option (ObjectId * Tag) :=
  List.find (fun d => bool_decide (tag_name (snd d) = name)) (map_to_list coll).

(** [new Tag({ name })] *)
Definition new_Tag (name : string) : Tag := {| tag_name := name; postCount := 0 |}.

Definition inc_postCount (d : Z) (t : Tag) : Tag :=
  {| tag_name := tag_name t; postCount := postCount t + d |}.

(** [Tag.updateMany({ _id: { $in: ids } }, { $inc: { postCount: d } })]:
    every document whose [_id] is among [ids] is updated, once. *)
Definition Tag_updateMany_inc (ids : list ObjectId) (d : Z)
    (coll : gmap ObjectId Tag) : gmap ObjectId Tag :=
  map_imap (fun i t => Some (if bool_decide (i ∈ ids) then inc_postCount d t else t)) coll.

(** [Post.findById(id)] *)
Definition Post_findById (coll : gmap ObjectId Post) (id : ObjectId) : option Post :=
  coll !! id.

(** [Post.findOne({ slug })] *)
Definition Post_findOne_slug (coll : gmap ObjectId Post) (s : string) : option (ObjectId * Post) :=
  List.find (fun d => bool_decide (slug (snd d) = s)) (map_to_list coll).

Definition inc_viewCount (p : Post) : Post :=
  {| title := title p; slug := slug p; content := content p; excerpt := excerpt p;
     coverImage := coverImage p; author := author p; tags := tags p;
     status := status p; seoTitle := seoTitle p; seoDescription := seoDescription p;
     featured := featured p; viewCount := viewCount p + 1; likeCount := likeCount p |}.

Definition inc_likeCount (p : Post) : Post :=
  {| title := title p; slug := slug p; content := content p; excerpt := excerpt p;
     coverImage := coverImage p; author := author p; tags := tags p;
     status := status p; seoTitle := seoTitle p; seoDescription := seoDescription p;
     featured := featured p; viewCount := viewCount p; likeCount := likeCount p + 1 |}.

(** [Post.findByIdAndUpdate(id, { $inc: { viewCount: 1 } })] *)
Definition Post_findByIdAndUpdate_inc_viewCount (id : ObjectId)
    (coll : gmap ObjectId Post) : gmap ObjectId Post :=
  alter inc_viewCount id coll.

(** [post.save()] *)
Definition Post_save (id : ObjectId) (p : Post) (coll : gmap ObjectId Post) : gmap ObjectId Post :=
  <[id := p]> coll.

(** [Post.findByIdAndDelete(id)] *)
Definition Post_findByIdAndDelete (id : ObjectId) (coll : gmap ObjectId Post) : gmap ObjectId Post :=
  delete id coll.

(** [.populate('tags', 'name slug color')]: the referenced tags that exist. *)
Definition populate_tags (coll : gmap ObjectId Tag) (ids : list ObjectId) : list (ObjectId * string) :=
  omap (fun i => (fun t => (i, tag_name t)) <$> coll !! i) ids.

(** [Array.prototype.includes] on a plain array of [ObjectId] objects asked
    for a primitive string. It compares with SameValueZero, under which an
    object and a string are never the same value. *)
Definition sameValueZero_object_string (o : ObjectId) (s : string) : bool := false.

Definition Array_includes_string (xs : list ObjectId) (s : string) : bool :=
  existsb (fun o => sameValueZero_object_string o s) xs.

(** [includes] of a Mongoose array of ObjectIds (the array a document holds
    at a path such as [post.tags]): Mongoose's [indexOf] turns an ObjectId
    argument into its string and compares it to each element with [==],
    which turns the element into its string too. *)
Definition MongooseArray_includes (xs : list ObjectId) (o : ObjectId) : bool :=
  existsb (fun x => bool_decide (ObjectId_toString o = ObjectId_toString x)) xs.

End Mongo.

(** ** Requests and responses *)

(** [req.body.tags]: an array of strings, or one comma-separated string. *)
Inductive TagsField : Type :=
| TagsArray (names : list string)
| TagsString (s : string).

(** [req.body] of the create and update requests; [None] is [undefined]. *)
Record Body : Type := mkBody {
  b_title : option string;
  b_content : option string;
  b_excerpt : option string;
  b_tags : option TagsField;
  b_status : option string;
  b_seoTitle : option string;
  b_seoDescription : option string;
  b_featured : option bool
}.

(** [req.user], as the authentication middleware leaves it. *)
Record User : Type := mkUser {
  user_id : ObjectId;
  role : string
}.

(** [req.params.id]: a string that casts to an ObjectId, or one that does
    not (for which [findById] throws a [CastError]). *)
Inductive IdParam : Type :=
| ValidId (o : ObjectId)
| NotAnId (s : string).

Inductive ResBody : Type :=
| Message (message : string)
| ValidationFailed (errors : list string)
| PostJson (message : option string) (id : ObjectId) (post : Post)
    (populated_tags : list (ObjectId * string))
| LikeJson (message : string) (likeCount : Z)
| ErrorJson (message : string) (error : option string) (details : option string).

(** [res.status(code).json(body)] *)
Inductive Response : Type :=
| Json (code : nat) (body : ResBody).

Definition res_code (r : Response) : nat := match r with Json c _ => c end.

(** The outward failures the specification names. *)
Definition ValidationError (r : Response) : Prop := res_code r = 400%nat.
Definition ForbiddenError (r : Response) : Prop := res_code r = 403%nat.
Definition NotFoundError (r : Response) : Prop := res_code r = 404%nat.

(** ** The handlers *)
Module PostsRouter.
Import Js Mongo.

(** [postValidation]: the messages of the rules that fail. *)
Definition postValidation (b : Body) : list string :=
  (let t := trim (default EmptyString (b_title b)) in
   if (3 <=? String.length t)%nat && (String.length t <=? 200)%nat then []
   else ["Title must be between 3 and 200 characters"%string])
  ++
  (let c := trim (default EmptyString (b_content b)) in
   if (10 <=? String.length c)%nat then []
   else ["Content must be at least 10 characters long"%string])
  ++
  (match b_status b with
   | None => []
   | Some s =>
       if bool_decide (s = "draft"%string) || bool_decide (s = "published"%string) then []
       else ["Status must be either draft or published"%string]
   end).

(** The sanitizers of [postValidation] leave the trimmed title and content
    in [req.body]. *)
Definition sanitized_title (b : Body) : string := trim (default EmptyString (b_title b)).
Definition sanitized_content (b : Body) : string := trim (default EmptyString (b_content b)).

(** Modelled from the spec: the slug a new post gets (models/Post is not
    among the sources): readable, derived from the title and unique; here
    the lower-cased title followed by a dash and the id of the post, which
    no other post has. *)
Definition slugify (t : string) : string := toLowerCase t.

Definition unique_slug (id : ObjectId) (t : string) : string :=
  slugify t +:+ "-" +:+ ObjectId_toString id.

(** [Array.isArray(tags) ? tags : tags.split(',').map(tag => tag.trim())],
    with [tags = []] when the body has none. *)
Definition tagNames (tags : option TagsField) : list string :=
  match tags with
  | None => []
  | Some (TagsArray names) => names
  | Some (TagsString s) => map trim (split ","%char s)
  end.

(** The loop that finds or creates the tag of each name and collects the
    ids ([tagIds]); it is the same in the create handler (lines 246-255)
    and in the update handler (lines 340-349). *)
Fixpoint processTags (names : list string) (coll : gmap ObjectId Tag)
    : list ObjectId * gmap ObjectId Tag :=
  match names with
  | [] => ([], coll)
  | tagName :: rest =>
      if truthy tagName then
        match Tag_findOne coll (toLowerCase tagName) with
        | Some (i, _) =>
            let '(ids, coll') := processTags rest coll in (i :: ids, coll')
        | None =>
            let i := newObjectId coll in
            let '(ids, coll') :=
              processTags rest (<[i := new_Tag (toLowerCase tagName)]> coll) in
            (i :: ids, coll')
        end
      else processTags rest coll
  end.

Definition is_published (p : Post) : bool :=
  bool_decide (status p = Some "published"%string).

Definition is_admin (u : option User) : bool :=
  match u with
  | None => false
  | Some u => bool_decide (role u = "admin"%string) || bool_decide (role u = "super_admin"%string)
  end.

Definition not_found : Response := Json 404 (Message "Post not found").

(** The post [GET /api/posts/:id] reads: the one with that id, and
    otherwise (none has it, or the parameter is no id) the one with that
    slug. *)
Definition find_by_id_or_slug (st : Store) (id : IdParam) : option (ObjectId * Post) :=
  match id with
  | ValidId o =>
      match Post_findById (posts st) o with
      | Some p => Some (o, p)
      | None => Post_findOne_slug (posts st) (ObjectId_toString o)
      end
  | NotAnId s => Post_findOne_slug (posts st) s
  end.

(** [GET /api/posts/:id] (lines 155-214) *)
Definition get_post (st : Store) (user : option User) (id : IdParam) : Response * Store :=
  match find_by_id_or_slug st id with
  | None => (not_found, st)
  | Some (o, post) =>
      if negb (is_published post) && negb (is_admin user) then (not_found, st)
      else if is_published post then
        (Json 200 (PostJson None o (inc_viewCount post) (populate_tags (tagsColl st) (tags post))),
         {| posts := Post_findByIdAndUpdate_inc_viewCount o (posts st);
            tagsColl := tagsColl st |})
      else
        (Json 200 (PostJson None o post (populate_tags (tagsColl st) (tags post))), st)
  end.

Definition cover_path (filename : string) : string := "/uploads/posts/" +:+ filename.

(** [POST /api/posts] (lines 219-298) *)
Definition create_post (st : Store) (user : User) (file : option string) (b : Body)
    : Response * Store :=
  match postValidation b with
  | (_ :: _) as errors => (Json 400 (ValidationFailed errors), st)
  | [] =>
      let coverImage := match file with Some f => cover_path f | None => EmptyString end in
      let '(tagIds, coll1) := processTags (tagNames (b_tags b)) (tagsColl st) in
      let id := newObjectId (posts st) in
      let post :=
        {| title := sanitized_title b;
           slug := unique_slug id (sanitized_title b);
           content := sanitized_content b;
           excerpt := b_excerpt b;
           coverImage := coverImage;
           author := user_id user;
           tags := tagIds;
           status := Some (default "draft"%string (b_status b));
           seoTitle := b_seoTitle b;
           seoDescription := b_seoDescription b;
           featured := default false (b_featured b);
           viewCount := 0;
           likeCount := 0 |} in
      let posts1 := Post_save id post (posts st) in
      let coll2 := Tag_updateMany_inc tagIds 1 coll1 in
      (Json 201 (PostJson (Some "Post created successfully"%string) id post
                          (populate_tags coll2 tagIds)),
       {| posts := posts1; tagsColl := coll2 |})
  end.

(** [Object.assign(post, { title, content, excerpt, tags: tagIds, status,
    seoTitle, seoDescription, featured: ... })] on a post whose cover image
    was already replaced when a file came with the request. Assigning
    [undefined] to a path of a document unsets it. *)
Definition assign_fields (post : Post) (file : option string) (b : Body)
    (tagIds : list ObjectId) : Post :=
  {| title := sanitized_title b;
     slug := slug post;
     content := sanitized_content b;
     excerpt := b_excerpt b;
     coverImage := match file with Some f => cover_path f | None => coverImage post end;
     author := author post;
     tags := tagIds;
     status := b_status b;
     seoTitle := b_seoTitle b;
     seoDescription := b_seoDescription b;
     featured := match b_featured b with Some f => f | None => featured post end;
     viewCount := viewCount post;
     likeCount := likeCount post |}.

(** [oldTagIds.filter(tagId => !tagIds.includes(tagId.toString()))] (line 353):
    [tagIds] is the plain array the loop filled with [tag._id] objects. *)
Definition removedTagIds (oldTagIds tagIds : list ObjectId) : list ObjectId :=
  List.filter (fun tagId => negb (Array_includes_string tagIds (ObjectId_toString tagId))) oldTagIds.

(** [tagIds.filter(tagId => !oldTagIds.includes(tagId))] (line 354):
    [oldTagIds] is [post.tags], the array of the document. *)
Definition addedTagIds (oldTagIds tagIds : list ObjectId) : list ObjectId :=
  List.filter (fun tagId => negb (MongooseArray_includes oldTagIds tagId)) tagIds.

(** [post.author.toString() !== req.user._id.toString()], negated. *)
Definition is_author (post : Post) (user : User) : bool :=
  bool_decide (ObjectId_toString (author post) = ObjectId_toString (user_id user)).

(** [PUT /api/posts/:id] (lines 303-400) *)
Definition update_post (st : Store) (user : User) (id : IdParam) (file : option string)
    (b : Body) : Response * Store :=
  match postValidation b with
  | (_ :: _) as errors => (Json 400 (ValidationFailed errors), st)
  | [] =>
      match id with
      | NotAnId _ => (not_found, st)
      | ValidId o =>
          match Post_findById (posts st) o with
          | None => (not_found, st)
          | Some post =>
              if negb (is_author post user) then
                (Json 403 (Message "You can only edit your own posts"), st)
              else
                let '(tagIds, coll1) := processTags (tagNames (b_tags b)) (tagsColl st) in
                let oldTagIds := tags post in
                let coll2 := Tag_updateMany_inc (removedTagIds oldTagIds tagIds) (-1) coll1 in
                let coll3 := Tag_updateMany_inc (addedTagIds oldTagIds tagIds) 1 coll2 in
                let post' := assign_fields post file b tagIds in
                (Json 200 (PostJson (Some "Post updated successfully"%string) o post'
                                    (populate_tags coll3 tagIds)),
                 {| posts := Post_save o post' (posts st); tagsColl := coll3 |})
          end
      end
  end.

(** The store between the two writes of the delete handler: the tag counts
    are released, the post is still there. *)
Definition release_tags (st : Store) (post : Post) : Store :=
  {| posts := posts st; tagsColl := Tag_updateMany_inc (tags post) (-1) (tagsColl st) |}.

Definition remove_post (st : Store) (o : ObjectId) : Store :=
  {| posts := Post_findByIdAndDelete o (posts st); tagsColl := tagsColl st |}.

(** [DELETE /api/posts/:id] (lines 405-438) *)
Definition delete_post (st : Store) (user : User) (id : IdParam) : Response * Store :=
  match id with
  | NotAnId _ => (not_found, st)
  | ValidId o =>
      match Post_findById (posts st) o with
      | None => (not_found, st)
      | Some post =>
          if negb (is_author post user) then
            (Json 403 (Message "You can only delete your own posts"), st)
          else
            (Json 200 (Message "Post deleted successfully"),
             remove_post (release_tags st post) o)
      end
  end.

(** [POST /api/posts/:id/like] (lines 443-471) *)
Definition like_post (st : Store) (user : User) (id : IdParam) : Response * Store :=
  match id with
  | NotAnId _ => (not_found, st)
  | ValidId o =>
      match Post_findById (posts st) o with
      | None => (not_found, st)
      | Some post =>
          if negb (is_published post) then (not_found, st)
          else
            let post' := inc_likeCount post in
            (Json 200 (LikeJson "Post liked successfully" (likeCount post')),
             {| posts := Post_save o post' (posts st); tagsColl := tagsColl st |})
      end
  end.

End PostsRouter.

(** ** The [catch] branches *)

(** What a handler catches: a JavaScript error. *)
Record JsError : Type := mkJsError {
  err_name : string;
  err_message : string;
  err_stack : string
}.

(** The routes of the router, in the order they are registered. *)
Inductive Endpoint : Type :=
| ListPosts | RecentPosts | GetPost | CreatePost | UpdatePost | DeletePost
| LikePost | SummarizePost | GenerateAi | GenerateContent | ImproveTitle
| GenerateExcerpt | AiStatus.

Module Catch.

Definition generic_error : string := "Internal server error".

(** [process.env.NODE_ENV === 'development'] *)
Definition is_development (node_env : option string) : bool :=
  bool_decide (node_env = Some "development"%string).

(** [process.env.NODE_ENV === 'development' ? error.message : 'Internal server error'] *)
Definition error_field (node_env : option string) (e : JsError) : option string :=
  Some (if is_development node_env then err_message e else generic_error).

(** [process.env.NODE_ENV === 'development' ? error.stack : undefined] *)
Definition details_field (node_env : option string) (e : JsError) : option string :=
  if is_development node_env then Some (err_stack e) else None.

Definition is_CastError (e : JsError) : bool := bool_decide (err_name e = "CastError"%string).

Definition failed (message : string) (node_env : option string) (e : JsError) : Response :=
  Json 500 (ErrorJson message (error_field node_env e) None).

Definition failed_with_details (message : string) (node_env : option string) (e : JsError)
    : Response :=
  Json 500 (ErrorJson message (error_field node_env e) (details_field node_env e)).

Definition cast_or_failed (message : string) (node_env : option string) (e : JsError)
    : Response :=
  if is_CastError e then Json 404 (Message "Post not found") else failed message node_env e.

(** The response of the [catch] branch of each route. *)
Definition catch_response (ep : Endpoint) (node_env : option string) (e : JsError) : Response :=
  match ep with
  | ListPosts => failed "Failed to fetch posts" node_env e
  | RecentPosts => failed "Failed to fetch recent posts" node_env e
  | GetPost => cast_or_failed "Failed to fetch post" node_env e
  | CreatePost => failed_with_details "Failed to create post" node_env e
  | UpdatePost => cast_or_failed "Failed to update post" node_env e
  | DeletePost => cast_or_failed "Failed to delete post" node_env e
  | LikePost => cast_or_failed "Failed to like post" node_env e
  | SummarizePost => failed "Failed to generate summary" node_env e
  | GenerateAi => failed_with_details "Failed to generate blog post" node_env e
  | GenerateContent => failed "Failed to generate content" node_env e
  | ImproveTitle => failed "Failed to improve title" node_env e
  | GenerateExcerpt => failed "Failed to generate excerpt" node_env e
  | AiStatus =>
      Json 500 (ErrorJson "Failed to check AI service status" (Some (err_message e)) None)
  end.

(** The body shows nothing of the error: no [details], and an [error]
    field, when there is one, that is the fixed outward text. *)
Definition generic_only (r : Response) : Prop :=
  match r with
  | Json _ (ErrorJson _ error details) =>
      (error = None ∨ error = Some generic_error) ∧ details = None
  | Json _ (Message _) => True
  | Json _ _ => False
  end.

(** The body carries the message or the stack of the error. *)
Definition exposes_detail (r : Response) (e : JsError) : Prop :=
  match r with
  | Json _ (ErrorJson _ error details) =>
      error = Some (err_message e) ∨ details = Some (err_stack e)
  | Json _ _ => False
  end.

End Catch.

(** ** Observations on a store *)

(** The post count of the tag with the given id, when there is one. *)
Definition postCountOf (st : Store) (i : ObjectId) : option Z :=
  postCount <$> tagsColl st !! i.

(** No post answers to the id of the request. *)
Definition post_absent (st : Store) (id : IdParam) : Prop :=
  match id with
  | ValidId o => posts st !! o = None
  | NotAnId _ => True
  end.

(** ** Concrete requests and stores *)
Module Scenario.
Import PostsRouter.
Local Open Scope string_scope.

Definition empty_store : Store := {| posts := ∅; tagsColl := ∅ |}.

Definition alice : User := {| user_id := 100%nat; role := "user" |}.
Definition bob : User := {| user_id := 101%nat; role := "user" |}.

(** A body that passes [postValidation], with the given tags. *)
Definition body_with (t : option TagsField) : Body :=
  {| b_title := Some "Hello world"; b_content := Some "Some content here";
     b_excerpt := None; b_tags := t; b_status := Some "published";
     b_seoTitle := None; b_seoDescription := None; b_featured := None |}.

(** A body that fails it: the title is too short. *)
Definition short_title_body : Body :=
  {| b_title := Some "Hi"; b_content := Some "Some content here";
     b_excerpt := None; b_tags := None; b_status := None;
     b_seoTitle := None; b_seoDescription := None; b_featured := None |}.

(** The store after alice has created a post tagged go and rust: the post
    has id 0, go has id 0 and rust has id 1, each with count 1. *)
Definition go_rust_store : Store :=
  snd (create_post empty_store alice None (body_with (Some (TagsString "go,rust")))).

(** A body that names title and content only. *)
Definition bare_body : Body :=
  {| b_title := Some "Second title"; b_content := Some "Other content here";
     b_excerpt := None; b_tags := None; b_status := None;
     b_seoTitle := None; b_seoDescription := None; b_featured := None |}.

(** A published post with every optional field set, and its store. *)
Definition full_post : Post :=
  {| title := "Hello world"; slug := "hello world"; content := "Some content here";
     excerpt := Some "short"; coverImage := "/uploads/posts/a.png";
     author := 100%nat; tags := []; status := Some "published";
     seoTitle := Some "seo"; seoDescription := Some "about"; featured := true;
     viewCount := 4; likeCount := 2 |}.

Definition full_store : Store := {| posts := {[ 0%nat := full_post ]}; tagsColl := ∅ |}.

(** A draft of alice, and its store. *)
Definition draft_post : Post :=
  {| title := "Not yet"; slug := "not yet"; content := "Work in progress";
     excerpt := None; coverImage := ""; author := 100%nat; tags := [];
     status := Some "draft"; seoTitle := None; seoDescription := None;
     featured := false; viewCount := 0; likeCount := 0 |}.

Definition draft_store : Store := {| posts := {[ 0%nat := draft_post ]}; tagsColl := ∅ |}.

Definition admin : User := {| user_id := 1%nat; role := "admin" |}.

(** The requests the properties below are read at, with their outcomes. *)
Definition array_go_create : Response * Store :=
  create_post empty_store alice None (body_with (Some (TagsArray ["Go"; "go"; " GO "]))).

Definition string_go_create : Response * Store :=
  create_post empty_store alice None (body_with (Some (TagsString "Go,go, GO "))).

Definition twice_go_create : Response * Store :=
  create_post empty_store alice None (body_with (Some (TagsArray ["go"; "Go"]))).

Definition rust_python_update : Response * Store :=
  update_post go_rust_store alice (ValidId 0%nat) None
    (body_with (Some (TagsString "rust,python"))).

Definition bare_update : Response * Store :=
  update_post full_store alice (ValidId 0%nat) None bare_body.

Definition invalid_absent_update : Response * Store :=
  update_post empty_store alice (ValidId 7%nat) None short_title_body.

Definition boom : JsError :=
  {| err_name := "TypeError"; err_message := "aiService.isAvailable is not a function";
     err_stack := "TypeError: aiService.isAvailable is not a function at routes/posts.js" |}.

End Scenario.

(** ** More of JavaScript's strings *)
Module JsText.
Import Js.

(** [Array.prototype.join] with a one-character separator. *)
Fixpoint join (sep : ascii) (l : list string) : string :=
  match l with
  | [] => EmptyString
  | x :: rest =>
      match rest with
      | [] => x
      | _ :: _ => x +:+ String sep (join sep rest)
      end
  end.

(** The character occurs in the string. *)
Fixpoint has_char (c : ascii) (s : string) : bool :=
  match s with
  | EmptyString => false
  | String a r => bool_decide (a = c) || has_char c r
  end.


(** [s.startsWith(p)] *)
Fixpoint startsWith (p s : string) : bool :=
  match p with
  | EmptyString => true
  | String a p' =>
      match s with
      | EmptyString => false
      | String b s' => bool_decide (a = b) && startsWith p' s'
      end
  end.

(** [s.includes(needle)] *)
Fixpoint includes (needle s : string) : bool :=
  startsWith needle s ||
  match s with
  | EmptyString => false
  | String _ r => includes needle r
  end.

End JsText.

(** ** Consistency of the store *)
Module Invariant.
Import PostsRouter.

(** The number of posts whose [tags] hold the id. *)
Definition referencing (coll : gmap ObjectId Post) (i : ObjectId) : nat :=
  size (filter (fun d => i ∈ tags (snd d)) coll).

(** Every tag's [postCount] is the number of posts that refer to it. *)
Definition counts_consistent (st : Store) : Prop :=
  map_Forall (fun i t => postCount t = Z.of_nat (referencing (posts st) i)) (tagsColl st).

(** Every id in the [tags] of a post is the id of a tag. *)
Definition refs_exist (st : Store) : Prop :=
  map_Forall (fun _ p => Forall (fun i => is_Some (tagsColl st !! i)) (tags p)) (posts st).

(** No two tags have the same name. *)
Definition names_unique (coll : gmap ObjectId Tag) : Prop :=
  NoDup ((fun d => tag_name (snd d)) <$> map_to_list coll).


End Invariant.

(** ** The list route *)
Module ListRoute.
Import Js PostsRouter.

(** A value of [req.query] that is validated as an integer: absent, an
    integer literal, or any other string. *)
Inductive QueryInt : Type :=
| QAbsent
| QInt (z : Z)
| QNotInt (s : string).

(** [req.query] of [GET /api/posts]. *)
Record ListQuery : Type := mkListQuery {
  q_page : QueryInt;
  q_limit : QueryInt;
  q_tag : option string;
  q_search : option string;
  q_sort : option string
}.

(** [query(name).optional().isInt({ min, max })]: the message when the rule
    fails. *)
Definition check_int (q : QueryInt) (min : Z) (max : option Z) (message : string)
    : list string :=
  match q with
  | QAbsent => []
  | QInt z =>
      if (min <=? z) && match max with Some m => z <=? m | None => true end
      then [] else [message]
  | QNotInt _ => [message]
  end.

Definition sort_options : list string :=
  ["newest"; "oldest"; "popular"; "trending"]%string.

(** The validation chain of the route (lines 31-37). *)
Definition listValidation (q : ListQuery) : list string :=
  check_int (q_page q) 1 None "Page must be a positive integer"
  ++ check_int (q_limit q) 1 (Some 50) "Limit must be between 1 and 50"
  ++ match q_sort q with
     | None => []
     | Some s => if bool_decide (s ∈ sort_options) then []
                 else ["Invalid sort option"%string]
     end.

(** [parseInt(value) || fallback], for a value that passed [isInt] or is
    absent. *)
Definition parseInt_or (q : QueryInt) (fallback : Z) : Z :=
  match q with
  | QInt z => if z =? 0 then fallback else z
  | QAbsent | QNotInt _ => fallback
  end.

(** [Math.ceil(a / b)] for a count [a] and a positive [b]. *)
Definition ceil_div (a b : Z) : Z := (a + b - 1) / b.

(** The body of the answer. *)
Record Page : Type := mkPage {
  page_posts : list (ObjectId * Post);
  totalPosts : Z;
  currentPage : Z;
  totalPages : Z;
  hasNextPage : bool;
  hasPrevPage : bool
}.

Inductive ListResponse : Type :=
| ListJson (page : Page)
| ListInvalid (errors : list string).

(** [.select('-content')]: the content is left out of the listed posts;
    here it is emptied. *)
Definition without_content (d : ObjectId * Post) : ObjectId * Post :=
  let p := snd d in
  (fst d,
   {| title := title p; slug := slug p; content := EmptyString; excerpt := excerpt p;
      coverImage := coverImage p; author := author p; tags := tags p;
      status := status p; seoTitle := seoTitle p; seoDescription := seoDescription p;
      featured := featured p; viewCount := viewCount p; likeCount := likeCount p |}).

Section Handler.

(** The parts of the route that the sources leave to the models and to the
    database: the slug of a tag, the text search of [$text], and the order
    [.sort(sortOptions)] gives the matching posts (it sorts by
    [publishedAt], and among equal keys the order is the database's). *)
Variable tag_slug : Tag → string.
Variable text_matches : string → Post → bool.
Variable sorted : string → list (ObjectId * Post) → list (ObjectId * Post).

(** [Tag.findOne({ slug })] *)
Definition Tag_findOne_slug (coll : gmap ObjectId Tag) (s : string) : option (ObjectId * Tag) :=
  List.find (fun d => bool_decide (tag_slug (snd d) = s)) (map_to_list coll).

(** The posts [Post.find(query)] matches: published, tagged with the tag
    when there is a tag filter, and found by the search when there is one. *)
Definition matches_query (tagId : option ObjectId) (search : option string)
    (d : ObjectId * Post) : bool :=
  is_published (snd d)
  && match tagId with Some i => bool_decide (i ∈ tags (snd d)) | None => true end
  && match search with Some s => text_matches s (snd d) | None => true end.

Definition find_sorted (st : Store) (tagId : option ObjectId) (search : option string)
    (sort : string) : list (ObjectId * Post) :=
  sorted sort (List.filter (matches_query tagId search) (map_to_list (posts st))).

(** A filter that is given and not empty, after the [trim] of the chain. *)
Definition given (v : option string) : option string :=
  match v with
  | Some s => if truthy (trim s) then Some (trim s) else None
  | None => None
  end.

(** The answer once the tag filter is settled (lines 74-116). *)
Definition list_page (st : Store) (q : ListQuery) (tagId : option ObjectId) : Page :=
  let page := parseInt_or (q_page q) 1 in
  let limit := parseInt_or (q_limit q) 10 in
  let skip := (page - 1) * limit in
  let found := find_sorted st tagId (given (q_search q)) (default "newest"%string (q_sort q)) in
  let total := Z.of_nat (List.length found) in
  {| page_posts := without_content <$> take (Z.to_nat limit) (drop (Z.to_nat skip) found);
     totalPosts := total;
     currentPage := page;
     totalPages := ceil_div total limit;
     hasNextPage := page <? ceil_div total limit;
     hasPrevPage := 1 <? page |}.

(** [GET /api/posts] (lines 30-125) *)
Definition list_posts (st : Store) (q : ListQuery) : ListResponse :=
  match listValidation q with
  | (_ :: _) as errors => ListInvalid errors
  | [] =>
      match given (q_tag q) with
      | Some tag =>
          match Tag_findOne_slug (tagsColl st) tag with
          | Some (i, _) => ListJson (list_page st q (Some i))
          | None =>
              ListJson {| page_posts := []; totalPosts := 0;
                          currentPage := parseInt_or (q_page q) 1; totalPages := 0;
                          hasNextPage := false; hasPrevPage := false |}
          end
      | None => ListJson (list_page st q None)
      end
  end.

End Handler.

(** The query for page [k] with [limit] posts a page. *)
Definition page_query (k limit : Z) (tag search sort : option string) : ListQuery :=
  {| q_page := QInt k; q_limit := QInt limit; q_tag := tag; q_search := search;
     q_sort := sort |}.

End ListRoute.

(** A setting for the list route: the slug of a tag is its name, the text
    search looks for the words in the title, and the posts come in the
    order of the collection. *)
Module ListScenario.
Import JsText ListRoute.

Definition slug_of_name (t : Tag) : string := tag_name t.

Definition in_title (s : string) (p : Post) : bool := includes s (title p).

Definition natural_order (sort : string) (l : list (ObjectId * Post)) : list (ObjectId * Post) := l.

Definition first_page : ListQuery :=
  page_query 1 10 (Some "rust"%string) None (Some "popular"%string).

End ListScenario.

(** ** The client (services/api.ts) *)
Module Client.
Import Js JsText.

(** [[a-zA-Z0-9]] *)
Definition is_alnum (c : ascii) : bool :=
  let n := nat_of_ascii c in
  ((48 <=? n)%nat && (n <=? 57)%nat)
  || ((65 <=? n)%nat && (n <=? 90)%nat)
  || ((97 <=? n)%nat && (n <=? 122)%nat).

Fixpoint all_alnum (s : string) : bool :=
  match s with
  | EmptyString => true
  | String a r => is_alnum a && all_alnum r
  end.

(** What is left of [s] after the prefix [p], when [s] starts with it. *)
Fixpoint strip_prefix (p s : string) : option string :=
  match p with
  | EmptyString => Some s
  | String a p' =>
      match s with
      | EmptyString => None
      | String b s' => if bool_decide (a = b) then strip_prefix p' s' else None
      end
  end.

(** [url.match(/^<prefix>[a-zA-Z0-9]+$/)] for a literal prefix. *)
Definition matches_id_path (prefix url : string) : bool :=
  match strip_prefix prefix url with
  | Some rest => truthy rest && all_alnum rest
  | None => false
  end.

Definition publicEndpoints : list string := ["/posts"; "/posts/recent"]%string.

(** [isPublicEndpoint] (lines 43-56) *)
Definition isPublicEndpoint (url : string) : bool :=
  if matches_id_path "/posts/" url then true
  else if matches_id_path "/comments/" url then true
  else existsb (fun endpoint => bool_decide (url = endpoint)
                                || startsWith (endpoint +:+ "?") url) publicEndpoints.

(** [import.meta.env] *)
Record Env : Type := mkEnv {
  env_PROD : bool;
  env_DEV : bool;
  VITE_API_URL : option string;
  VITE_DEV_TOKEN : option string
}.

(** A value that may be missing is truthy when it is there and not empty. *)
Definition truthy_opt (v : option string) : bool :=
  match v with
  | Some s => truthy s
  | None => false
  end.

(** [getBaseURL] (lines 20-25) *)
Definition getBaseURL (env : Env) : string :=
  if env_PROD env && truthy_opt (VITE_API_URL env)
  then default EmptyString (VITE_API_URL env) +:+ "/api"
  else "/api"%string.

(** The request configuration, as far as the interceptor reads and writes it. *)
Record RequestConfig : Type := mkRequestConfig {
  config_url : option string;
  Authorization : option string
}.

(** The request interceptor (lines 59-83); [stored] is
    [localStorage.getItem('token')]. *)
Definition request_interceptor (env : Env) (stored : option string) (config : RequestConfig)
    : RequestConfig :=
  let url := if truthy_opt (config_url config) then default EmptyString (config_url config)
             else EmptyString in
  if negb (isPublicEndpoint url) then
    let token :=
      if negb (truthy_opt stored) && env_DEV env && truthy_opt (VITE_DEV_TOKEN env)
      then VITE_DEV_TOKEN env else stored in
    if truthy_opt token
    then {| config_url := config_url config;
            Authorization := Some ("Bearer " +:+ default EmptyString token) |}
    else config
  else config.

(** What the response interceptor can change: the two entries of
    [localStorage] and the location of the window. *)
Record Browser : Type := mkBrowser {
  stored_token : option string;
  stored_user : option string;
  location_href : string
}.

(** The error branch of the response interceptor (lines 88-104), for an
    error with the given status and request url. *)
Definition response_error (br : Browser) (status : option nat) (url : option string) : Browser :=
  if bool_decide (status = Some 401%nat) then
    let u := if truthy_opt url then default EmptyString url else EmptyString in
    if includes "/auth/me" u || includes "/auth/profile" u
    then {| stored_token := None; stored_user := None; location_href := "/login" |}
    else br
  else br.

(** The urls of the posts API (lines 147-247). *)
Definition posts_url : string := "/posts".
Definition post_url (id : string) : string := "/posts/" +:+ id.
Definition like_url (id : string) : string := "/posts/" +:+ id +:+ "/like".
Definition summarize_url (id : string) : string := "/posts/" +:+ id +:+ "/summarize".

(** [postData.tags], which the form leaves as an array, a string or nothing. *)
Inductive ClientTags : Type :=
| ClientArray (names : list string)
| ClientString (s : string)
| ClientNone.

(** The [tags] field [createPost] appends to the form (lines 169-176). *)
Definition createPost_tags (t : ClientTags) : string :=
  match t with
  | ClientArray names => join ","%char names
  | ClientString s => s
  | ClientNone => EmptyString
  end.

(** The [tags] field [updatePost] appends to the form (lines 196-201). *)
Definition updatePost_tags (t : ClientTags) : string :=
  match t with
  | ClientArray names => join ","%char names
  | ClientString s => if truthy s then s else EmptyString
  | ClientNone => EmptyString
  end.

End Client.

(** ** The AI routes *)
Module AiRoutes.
Import Js PostsRouter.

(** What the routes use of [services/aiService], which is not among the
    sources: whether it is available, and what it generates. *)
Record AiService : Type := mkAiService {
  isAvailable : bool;
  summarizeBlogPost : string → option Z → string;
  generateBlogPost : string → string → list string → string;
  generateMetaDescription : string → string → string;
  generateSEOTitles : string → Z → option (list string)
}.


Inductive AiBody : Type :=
| AiMessage (message : string)
| AiInvalid (errors : list string)
| AiUnavailable (message : string) (error : option string)
| AiSummary (summary : string)
| AiGenerated (title content seoDescription : string)
| AiContent (content : string)
| AiTitle (title : string) (alternatives : option (list string))
| AiExcerpt (excerpt : string)
| AiFailed (message : string) (error : option string).

Inductive AiResponse : Type :=
| AiJson (code : nat) (body : AiBody).


Definition unavailable : AiResponse :=
  AiJson 503 (AiUnavailable "AI service is not available at the moment" None).

(** [body(field).trim().isLength({ min, max })] *)
Definition check_length (v : option string) (min : nat) (max : option nat) (message : string)
    : list string :=
  let t := trim (default EmptyString v) in
  if (min <=? String.length t)%nat
     && match max with Some m => (String.length t <=? m)%nat | None => true end
  then [] else [message].

Section Summarize.

(** The error [Post.findById] throws for an id that is no ObjectId (a
    [CastError], made by Mongoose). *)
Variable castError : string → JsError.


End Summarize.



(** [POST /api/posts/improve-title] (lines 608-647) *)
Definition improve_title (ai : AiService) (title : option string) : AiResponse :=
  match check_length title 3 None "Title is required" with
  | (_ :: _) as errors => AiJson 400 (AiInvalid errors)
  | [] =>
      if negb (isAvailable ai) then unavailable
      else
        let title := trim (default EmptyString title) in
        let improvedTitles := generateSEOTitles ai title 3 in
        let improvedTitle :=
          match improvedTitles with
          | Some (first :: _) => first
          | Some [] | None => title
          end in
        AiJson 200 (AiTitle improvedTitle improvedTitles)
  end.




Definition echo_service : AiService :=
  {| isAvailable := true;
     summarizeBlogPost := fun text _ => text;
     generateBlogPost := fun title _ _ => title;
     generateMetaDescription := fun title _ => title;
     generateSEOTitles := fun title _ => Some [] |}.

End AiRoutes.

(** ** The route table *)
Module Routing.
Import Js.








End Routing.

(** * Properties *)

Import Js Mongo PostsRouter.

(** ** Arrays of ids *)

Lemma Array_includes_string_false (xs : list ObjectId) (s : string) :
  Array_includes_string xs s = false.
Proof.
  unfold Array_includes_string.
  induction xs as [|x xs IH]; simpl; [reflexivity | exact IH].
Qed.

(** Every old tag id counts as removed, whatever the new ids are. *)
Lemma removedTagIds_all (oldTagIds tagIds : list ObjectId) :
  removedTagIds oldTagIds tagIds = oldTagIds.
Proof.
  unfold removedTagIds.
  induction oldTagIds as [|x xs IH]; [reflexivity|].
  simpl. rewrite Array_includes_string_false. simpl. now f_equal.
Qed.

Lemma MongooseArray_includes_elem_of (xs : list ObjectId) (o : ObjectId) :
  MongooseArray_includes xs o = true ↔ o ∈ xs.
Proof.
  unfold MongooseArray_includes. rewrite existsb_exists. split.
  - intros (x & Hin & Heq). apply bool_decide_eq_true in Heq.
    apply (inj pretty) in Heq. subst x. now apply list_elem_of_In.
  - intros Hin. exists o. split; [now apply list_elem_of_In|].
    now apply bool_decide_eq_true.
Qed.

Lemma elem_of_addedTagIds (oldTagIds tagIds : list ObjectId) (i : ObjectId) :
  i ∈ addedTagIds oldTagIds tagIds ↔ i ∈ tagIds ∧ i ∉ oldTagIds.
Proof.
  unfold addedTagIds. rewrite list_elem_of_In, filter_In, <- list_elem_of_In.
  split; intros [Hnew Hold]; (split; [exact Hnew|]).
  - intros Hin. apply MongooseArray_includes_elem_of in Hin.
    rewrite Hin in Hold. discriminate Hold.
  - destruct (MongooseArray_includes oldTagIds i) eqn:E; [|reflexivity].
    apply MongooseArray_includes_elem_of in E. contradiction.
Qed.

Lemma is_author_true (post : Post) (user : User) :
  is_author post user = true ↔ author post = user_id user.
Proof.
  unfold is_author. rewrite bool_decide_eq_true. split.
  - apply (inj pretty).
  - now intros ->.
Qed.

(** ** Collections *)

Lemma lookup_Tag_updateMany_inc (ids : list ObjectId) (d : Z) (coll : gmap ObjectId Tag)
    (i : ObjectId) :
  Tag_updateMany_inc ids d coll !! i
  = (fun t => if bool_decide (i ∈ ids) then inc_postCount d t else t) <$> coll !! i.
Proof.
  unfold Tag_updateMany_inc. rewrite map_lookup_imap.
  destruct (coll !! i); reflexivity.
Qed.

Lemma Tag_findOne_Some (coll : gmap ObjectId Tag) (name : string) (i : ObjectId) (t : Tag) :
  Tag_findOne coll name = Some (i, t) → coll !! i = Some t ∧ tag_name t = name.
Proof.
  unfold Tag_findOne. intros H. apply find_some in H as [Hin Hname].
  apply list_elem_of_In, elem_of_map_to_list in Hin.
  apply bool_decide_eq_true in Hname. auto.
Qed.

Lemma newObjectId_fresh {A} (coll : gmap ObjectId A) : coll !! newObjectId coll = None.
Proof.
  unfold newObjectId. apply not_elem_of_dom. apply is_fresh.
Qed.

(** ** The tag loop *)

(** The loop leaves the tags it finds as they are. *)
Lemma processTags_preserves (names : list string) :
  ∀ (coll coll' : gmap ObjectId Tag) (ids : list ObjectId) (i : ObjectId) (t : Tag),
    processTags names coll = (ids, coll') →
    coll !! i = Some t → coll' !! i = Some t.
Proof.
  induction names as [|n rest IH]; intros coll coll' ids i t Hrun Hi; simpl in Hrun.
  - now inversion Hrun; subst.
  - destruct (truthy n); [|eapply IH; eassumption].
    destruct (Tag_findOne coll (toLowerCase n)) as [[j tj]|] eqn:Hfind.
    + destruct (processTags rest coll) as [ids0 coll0] eqn:Hrest.
      inversion Hrun; subst. eapply IH; eauto.
    + destruct (processTags rest (<[newObjectId coll := new_Tag (toLowerCase n)]> coll))
        as [ids0 coll0] eqn:Hrest.
      inversion Hrun; subst. eapply IH; [exact Hrest|].
      rewrite lookup_insert_ne; [exact Hi|].
      intros Heq. rewrite <- Heq, newObjectId_fresh in Hi. discriminate Hi.
Qed.

(** A tag the loop adds is among the collected ids and has count 0. *)
Lemma processTags_created (names : list string) :
  ∀ (coll coll' : gmap ObjectId Tag) (ids : list ObjectId) (i : ObjectId) (t : Tag),
    processTags names coll = (ids, coll') →
    coll !! i = None → coll' !! i = Some t →
    i ∈ ids ∧ postCount t = 0.
Proof.
  induction names as [|n rest IH]; intros coll coll' ids i t Hrun Hnone Hi; simpl in Hrun.
  - inversion Hrun; subst. rewrite Hnone in Hi. discriminate Hi.
  - destruct (truthy n); [|eapply IH; eassumption].
    destruct (Tag_findOne coll (toLowerCase n)) as [[j tj]|] eqn:Hfind.
    + destruct (processTags rest coll) as [ids0 coll0] eqn:Hrest.
      inversion Hrun; subst.
      destruct (IH _ _ _ _ _ Hrest Hnone Hi) as [Hin Hc].
      split; [now apply elem_of_cons; right | exact Hc].
    + destruct (processTags rest (<[newObjectId coll := new_Tag (toLowerCase n)]> coll))
        as [ids0 coll0] eqn:Hrest.
      inversion Hrun; subst.
      destruct (decide (newObjectId coll = i)) as [Heq|Hne].
      * pose proof (processTags_preserves _ _ _ _ i (new_Tag (toLowerCase n)) Hrest) as Hp.
        rewrite <- Heq in Hp at 1. rewrite lookup_insert_eq in Hp.
        specialize (Hp eq_refl). rewrite Hp in Hi. inversion Hi; subst t.
        split; [apply elem_of_cons; left; now symmetry | reflexivity].
      * assert (Hnone' : <[newObjectId coll := new_Tag (toLowerCase n)]> coll !! i = None)
          by now rewrite lookup_insert_ne.
        destruct (IH _ _ _ _ _ Hrest Hnone' Hi) as [Hin Hc].
        split; [now apply elem_of_cons; right | exact Hc].
Qed.

(** Every collected id is the id of a tag of the collection the loop leaves. *)
Lemma processTags_ids_exist (names : list string) :
  ∀ (coll coll' : gmap ObjectId Tag) (ids : list ObjectId) (i : ObjectId),
    processTags names coll = (ids, coll') →
    i ∈ ids → is_Some (coll' !! i).
Proof.
  induction names as [|n rest IH]; intros coll coll' ids i Hrun Hin; simpl in Hrun.
  - inversion Hrun; subst. now apply elem_of_nil in Hin.
  - destruct (truthy n); [|eapply IH; eassumption].
    destruct (Tag_findOne coll (toLowerCase n)) as [[j tj]|] eqn:Hfind.
    + destruct (processTags rest coll) as [ids0 coll0] eqn:Hrest.
      inversion Hrun; subst. apply elem_of_cons in Hin as [->|Hin]; [|eapply IH; eassumption].
      apply Tag_findOne_Some in Hfind as [Hj _].
      exists tj. eapply processTags_preserves; eauto.
    + destruct (processTags rest (<[newObjectId coll := new_Tag (toLowerCase n)]> coll))
        as [ids0 coll0] eqn:Hrest.
      inversion Hrun; subst. apply elem_of_cons in Hin as [->|Hin]; [|eapply IH; eassumption].
      exists (new_Tag (toLowerCase n)).
      eapply processTags_preserves; [exact Hrest|]. apply lookup_insert_eq.
Qed.

(** ** Create *)

(** C10: a create request that names a tag twice stores the tag's id twice
    in the post (alice's post tagged go and Go on the empty store holds
    the id 0 twice, and the tag's count is 1); and whatever the accepted
    create request, the count of every tag the new post refers to goes up
    by exactly 1 (a tag the request creates ends at 1), the count of every
    other tag is unchanged, and no other tag appears. *)
Theorem create_post_counts_each_tag_once :
  (tags <$> posts (snd Scenario.twice_go_create) !! 0%nat = Some [0%nat; 0%nat] ∧
   postCountOf (snd Scenario.twice_go_create) 0%nat = Some 1) ∧
  ∀ (st : Store) (user : User) (file : option string) (b : Body),
    postValidation b = [] →
    ∃ (id : ObjectId) (post : Post) (pop : list (ObjectId * string)) (st' : Store),
      create_post st user file b
      = (Json 201 (PostJson (Some "Post created successfully"%string) id post pop), st') ∧
      posts st' !! id = Some post ∧
      ∀ i : ObjectId,
        postCountOf st' i =
        match postCountOf st i with
        | Some c => Some (if bool_decide (i ∈ tags post) then c + 1 else c)
        | None => if bool_decide (i ∈ tags post) then Some 1 else None
        end.
Proof.
  split; [vm_compute; split; reflexivity|].
  intros st user file b Hvalid. unfold create_post. rewrite Hvalid.
  destruct (processTags (tagNames (b_tags b)) (tagsColl st)) as [tagIds coll1] eqn:Hrun.
  eexists _, _, _, _. split; [reflexivity|]. split; [apply lookup_insert_eq|].
  intros i. unfold postCountOf. cbn [tagsColl tags].
  rewrite lookup_Tag_updateMany_inc.
  destruct (tagsColl st !! i) as [t|] eqn:Hi; cbn [fmap option_fmap option_map].
  - rewrite (processTags_preserves _ _ _ _ _ _ Hrun Hi). cbn.
    now destruct (bool_decide (i ∈ tagIds)).
  - destruct (coll1 !! i) as [t|] eqn:Hi1; cbn.
    + destruct (processTags_created _ _ _ _ _ _ Hrun Hi Hi1) as [Hin Hc].
      rewrite !bool_decide_eq_true_2 by exact Hin. cbn. now rewrite Hc.
    + rewrite bool_decide_eq_false_2; [reflexivity|].
      intros Hin. destruct (processTags_ids_exist _ _ _ _ _ Hrun Hin) as [t Ht].
      rewrite Ht in Hi1. discriminate Hi1.
Qed.

(** The theorem at alice's post tagged go and rust on the empty store. *)
Lemma create_post_counts_each_tag_once_witness :
  ∃ (id : ObjectId) (post : Post) (pop : list (ObjectId * string)) (st' : Store),
    create_post Scenario.empty_store Scenario.alice None
      (Scenario.body_with (Some (TagsString "go,rust")))
    = (Json 201 (PostJson (Some "Post created successfully"%string) id post pop), st') ∧
    posts st' !! id = Some post ∧
    ∀ i : ObjectId,
      postCountOf st' i =
      match postCountOf Scenario.empty_store i with
      | Some c => Some (if bool_decide (i ∈ tags post) then c + 1 else c)
      | None => if bool_decide (i ∈ tags post) then Some 1 else None
      end.
Proof.
  apply (proj2 create_post_counts_each_tag_once). vm_compute. reflexivity.
Defined.

(** The tags of a comma-separated list are trimmed before they are looked
    up: go, in three spellings, is one tag. *)
Lemma create_comma_separated_go_makes_one_tag :
  tagsColl (snd Scenario.string_go_create)
  = {[ 0%nat := {| tag_name := "go"; postCount := 1 |} ]} ∧
  tags <$> posts (snd Scenario.string_go_create) !! 0%nat = Some [0%nat; 0%nat; 0%nat].
Proof. vm_compute. split; reflexivity. Qed.

(** C1: the create request of alice on the empty store whose tags are the
    array of "Go", "go" and " GO " leaves two tags, "go" and " go " (the
    third name is lower-cased but not trimmed), each with count 1, and the
    post refers to both. *)
Theorem create_array_go_makes_two_tags :
  res_code (fst Scenario.array_go_create) = 201%nat ∧
  tagsColl (snd Scenario.array_go_create)
  = {[ 0%nat := {| tag_name := "go"; postCount := 1 |};
       1%nat := {| tag_name := " go "; postCount := 1 |} ]} ∧
  size (tagsColl (snd Scenario.array_go_create)) = 2%nat ∧
  tags <$> posts (snd Scenario.array_go_create) !! 0%nat = Some [0%nat; 0%nat; 1%nat].
Proof. vm_compute. repeat split; reflexivity. Qed.

(** ** Update *)

(** What an accepted update by the author does, step by step. *)
Lemma update_post_accepted (st : Store) (user : User) (o : ObjectId) (file : option string)
    (b : Body) (post : Post) :
  postValidation b = [] →
  posts st !! o = Some post →
  author post = user_id user →
  ∃ (tagIds : list ObjectId) (coll1 : gmap ObjectId Tag),
    processTags (tagNames (b_tags b)) (tagsColl st) = (tagIds, coll1) ∧
    snd (update_post st user (ValidId o) file b)
    = {| posts := <[o := assign_fields post file b tagIds]> (posts st);
         tagsColl := Tag_updateMany_inc (addedTagIds (tags post) tagIds) 1
                       (Tag_updateMany_inc (tags post) (-1) coll1) |} ∧
    res_code (fst (update_post st user (ValidId o) file b)) = 200%nat.
Proof.
  intros Hvalid Hpost Hauthor. unfold update_post, Post_findById.
  rewrite Hvalid, Hpost.
  apply is_author_true in Hauthor. rewrite Hauthor. cbn [negb].
  destruct (processTags (tagNames (b_tags b)) (tagsColl st)) as [tagIds coll1].
  exists tagIds, coll1. rewrite removedTagIds_all. repeat split.
Qed.

(** C2: alice's post is tagged go and rust, each with count 1, and she
    updates it to rust and python. The update is accepted; go goes from 1
    to 0 and python ends at 1, and rust, which the post keeps, goes from 1
    to 0 as well. *)
Theorem update_go_rust_to_rust_python :
  (tags <$> posts Scenario.go_rust_store !! 0%nat = Some [0%nat; 1%nat] ∧
   tagsColl Scenario.go_rust_store
   = {[ 0%nat := {| tag_name := "go"; postCount := 1 |};
        1%nat := {| tag_name := "rust"; postCount := 1 |} ]}) ∧
  res_code (fst Scenario.rust_python_update) = 200%nat ∧
  tags <$> posts (snd Scenario.rust_python_update) !! 0%nat = Some [1%nat; 2%nat] ∧
  tagsColl (snd Scenario.rust_python_update)
  = {[ 0%nat := {| tag_name := "go"; postCount := 0 |};
       1%nat := {| tag_name := "rust"; postCount := 0 |};
       2%nat := {| tag_name := "python"; postCount := 1 |} ]} ∧
  postCountOf Scenario.go_rust_store 1%nat = Some 1 ∧
  postCountOf (snd Scenario.rust_python_update) 1%nat = Some 0.
Proof. vm_compute. repeat split; reflexivity. Qed.

(** C3: when an accepted update by the author supplies a tag list that
    resolves to exactly the tags the post has, the count of every tag of
    the post is one less after the update than before. *)
Theorem update_same_tags_decrements (st : Store) (user : User) (o : ObjectId)
    (file : option string) (b : Body) (post : Post) (i : ObjectId) (t : Tag) :
  postValidation b = [] →
  posts st !! o = Some post →
  author post = user_id user →
  (∀ j, j ∈ fst (processTags (tagNames (b_tags b)) (tagsColl st)) ↔ j ∈ tags post) →
  i ∈ tags post →
  tagsColl st !! i = Some t →
  postCountOf st i = Some (postCount t) ∧
  postCountOf (snd (update_post st user (ValidId o) file b)) i = Some (postCount t - 1).
Proof.
  intros Hvalid Hpost Hauthor _ Hin Hi.
  split; [unfold postCountOf; now rewrite Hi|].
  destruct (update_post_accepted st user o file b post Hvalid Hpost Hauthor)
    as (tagIds & coll1 & Hrun & -> & _).
  unfold postCountOf. cbn [tagsColl].
  rewrite !lookup_Tag_updateMany_inc.
  rewrite (processTags_preserves _ _ _ _ _ _ Hrun Hi). cbn.
  rewrite (bool_decide_eq_true_2 _ Hin).
  rewrite bool_decide_eq_false_2; [reflexivity|].
  rewrite elem_of_addedTagIds. tauto.
Qed.

(** The theorem at alice's post tagged go and rust, updated with the tags
    go and rust: go goes from 1 to 0. *)
Lemma update_same_tags_decrements_witness :
  postCountOf Scenario.go_rust_store 0%nat = Some 1 ∧
  postCountOf (snd (update_post Scenario.go_rust_store Scenario.alice (ValidId 0%nat) None
                      (Scenario.body_with (Some (TagsString "go,rust"))))) 0%nat
  = Some 0.
Proof.
  apply (update_same_tags_decrements Scenario.go_rust_store Scenario.alice 0%nat None
           (Scenario.body_with (Some (TagsString "go,rust")))
           (default Scenario.full_post (posts Scenario.go_rust_store !! 0%nat))
           0%nat {| tag_name := "go"; postCount := 1 |}).
  - vm_compute. reflexivity.
  - vm_compute. reflexivity.
  - vm_compute. reflexivity.
  - intros j. vm_compute. tauto.
  - vm_compute. apply elem_of_cons. left. reflexivity.
  - vm_compute. reflexivity.
Defined.

(** An update that names title and content only unsets the excerpt and the
    SEO fields of a post that had them. *)
Lemma update_bare_body_unsets_fields :
  res_code (fst Scenario.bare_update) = 200%nat ∧
  (excerpt <$> posts Scenario.full_store !! 0%nat = Some (Some "short"%string) ∧
   seoTitle <$> posts Scenario.full_store !! 0%nat = Some (Some "seo"%string) ∧
   seoDescription <$> posts Scenario.full_store !! 0%nat = Some (Some "about"%string)) ∧
  ¬ (excerpt <$> posts (snd Scenario.bare_update) !! 0%nat
     = excerpt <$> posts Scenario.full_store !! 0%nat) ∧
  ¬ (seoTitle <$> posts (snd Scenario.bare_update) !! 0%nat
     = seoTitle <$> posts Scenario.full_store !! 0%nat) ∧
  ¬ (seoDescription <$> posts (snd Scenario.bare_update) !! 0%nat
     = seoDescription <$> posts Scenario.full_store !! 0%nat) ∧
  excerpt <$> posts (snd Scenario.bare_update) !! 0%nat = Some None.
Proof.
  vm_compute. repeat split; try reflexivity; intros H; discriminate H.
Qed.

(** C8: after an accepted update by the author the stored post has
    [featured] from the request when the request gives it and as before
    otherwise, the cover image of the uploaded file when there is one and
    as before otherwise, and author, slug and counters as before; title and
    content are the trimmed ones of the request; excerpt, SEO title and SEO
    description are what the request gives, unset when it gives none; and
    the status is the one of the request when the request names one. *)
Theorem update_post_fields (st : Store) (user : User) (o : ObjectId)
    (file : option string) (b : Body) (post : Post) :
  postValidation b = [] →
  posts st !! o = Some post →
  author post = user_id user →
  ∃ post' : Post,
    posts (snd (update_post st user (ValidId o) file b)) !! o = Some post' ∧
    featured post' = default (featured post) (b_featured b) ∧
    coverImage post' = default (coverImage post) (cover_path <$> file) ∧
    author post' = author post ∧ slug post' = slug post ∧
    viewCount post' = viewCount post ∧ likeCount post' = likeCount post ∧
    title post' = trim (default EmptyString (b_title b)) ∧
    content post' = trim (default EmptyString (b_content b)) ∧
    excerpt post' = b_excerpt b ∧
    seoTitle post' = b_seoTitle b ∧
    seoDescription post' = b_seoDescription b ∧
    (∀ s : string, b_status b = Some s → status post' = Some s).
Proof.
  intros Hvalid Hpost Hauthor.
  destruct (update_post_accepted st user o file b post Hvalid Hpost Hauthor)
    as (tagIds & coll1 & _ & -> & _).
  exists (assign_fields post file b tagIds). cbn [posts].
  split; [apply lookup_insert_eq|].
  unfold assign_fields; cbn.
  destruct (b_featured b), file; repeat split; intros s0 Hs; exact Hs.
Qed.

(** The theorem at the update of the fully filled post by a body that names
    title and content only. *)
Lemma update_post_fields_witness :
  ∃ post' : Post,
    posts (snd (update_post Scenario.full_store Scenario.alice (ValidId 0%nat) None
                  Scenario.bare_body)) !! 0%nat = Some post' ∧
    featured post' = true ∧
    coverImage post' = "/uploads/posts/a.png"%string ∧
    excerpt post' = None.
Proof.
  destruct (update_post_fields Scenario.full_store Scenario.alice 0%nat None
              Scenario.bare_body Scenario.full_post)
    as (post' & Hp & Hf & Hc & _ & _ & _ & _ & _ & _ & He & _ & _ & _).
  - vm_compute. reflexivity.
  - vm_compute. reflexivity.
  - vm_compute. reflexivity.
  - exists post'. repeat split; assumption.
Defined.

(** ** Rejections *)

(** An update request that fails validation and names no post is answered
    with the validation errors, not with "not found". *)
Lemma update_invalid_absent_is_400 :
  post_absent Scenario.empty_store (ValidId 7%nat) ∧
  ValidationError (fst Scenario.invalid_absent_update) ∧
  ¬ NotFoundError (fst Scenario.invalid_absent_update).
Proof.
  vm_compute. repeat split. intros H. discriminate H.
Qed.

(** C5: a delete request, and an update request that passes validation,
    is answered with "not found" when no post answers to the id and with
    "forbidden" when the post is someone else's; an update request that
    fails validation is answered with the validation errors; and in each
    of these cases the store is left exactly as it was. *)
Theorem update_delete_rejections (st : Store) (user : User) (id : IdParam)
    (file : option string) (b : Body) :
  (post_absent st id →
     NotFoundError (fst (delete_post st user id)) ∧ snd (delete_post st user id) = st) ∧
  (post_absent st id → postValidation b = [] →
     NotFoundError (fst (update_post st user id file b)) ∧
     snd (update_post st user id file b) = st) ∧
  (∀ (o : ObjectId) (post : Post),
     id = ValidId o → posts st !! o = Some post → author post ≠ user_id user →
     ForbiddenError (fst (delete_post st user id)) ∧ snd (delete_post st user id) = st) ∧
  (∀ (o : ObjectId) (post : Post),
     id = ValidId o → posts st !! o = Some post → author post ≠ user_id user →
     postValidation b = [] →
     ForbiddenError (fst (update_post st user id file b)) ∧
     snd (update_post st user id file b) = st) ∧
  (postValidation b ≠ [] →
     ValidationError (fst (update_post st user id file b)) ∧
     snd (update_post st user id file b) = st).
Proof.
  assert (Hna : ∀ post, author post ≠ user_id user → is_author post user = false).
  { intros post Hne. destruct (is_author post user) eqn:E; [|reflexivity].
    apply is_author_true in E. contradiction. }
  assert (Hdel : post_absent st id → delete_post st user id = (not_found, st)).
  { intros Habsent. unfold delete_post, Post_findById.
    destruct id as [o|s]; cbn in Habsent; [rewrite Habsent|]; reflexivity. }
  assert (Hupd : post_absent st id → postValidation b = [] →
                 update_post st user id file b = (not_found, st)).
  { intros Habsent Hvalid. unfold update_post, Post_findById. rewrite Hvalid.
    destruct id as [o|s]; cbn in Habsent; [rewrite Habsent|]; reflexivity. }
  split; [|split; [|split; [|split]]].
  - intros Habsent. rewrite (Hdel Habsent). split; reflexivity.
  - intros Habsent Hvalid. rewrite (Hupd Habsent Hvalid). split; reflexivity.
  - intros o post -> Hpost Hother. unfold delete_post, Post_findById.
    rewrite Hpost, (Hna _ Hother). split; reflexivity.
  - intros o post -> Hpost Hother Hvalid. unfold update_post, Post_findById.
    rewrite Hvalid, Hpost, (Hna _ Hother). split; reflexivity.
  - intros Hinvalid. unfold update_post.
    destruct (postValidation b); [contradiction|]. split; reflexivity.
Qed.

(** The theorem at bob's requests against alice's post (forbidden), at
    requests for the id 7 that no post has (not found), and at an update
    whose title is too short (validation). *)
Lemma update_delete_rejections_witness :
  (NotFoundError (fst (delete_post Scenario.go_rust_store Scenario.bob (ValidId 7%nat))) ∧
   snd (delete_post Scenario.go_rust_store Scenario.bob (ValidId 7%nat))
   = Scenario.go_rust_store) ∧
  (NotFoundError (fst (update_post Scenario.go_rust_store Scenario.bob (ValidId 7%nat) None
                         (Scenario.body_with None))) ∧
   snd (update_post Scenario.go_rust_store Scenario.bob (ValidId 7%nat) None
          (Scenario.body_with None)) = Scenario.go_rust_store) ∧
  (ForbiddenError (fst (delete_post Scenario.go_rust_store Scenario.bob (ValidId 0%nat))) ∧
   snd (delete_post Scenario.go_rust_store Scenario.bob (ValidId 0%nat))
   = Scenario.go_rust_store) ∧
  (ForbiddenError (fst (update_post Scenario.go_rust_store Scenario.bob (ValidId 0%nat) None
                          (Scenario.body_with None))) ∧
   snd (update_post Scenario.go_rust_store Scenario.bob (ValidId 0%nat) None
          (Scenario.body_with None)) = Scenario.go_rust_store) ∧
  (ValidationError (fst (update_post Scenario.go_rust_store Scenario.bob (ValidId 0%nat) None
                           Scenario.short_title_body)) ∧
   snd (update_post Scenario.go_rust_store Scenario.bob (ValidId 0%nat) None
          Scenario.short_title_body) = Scenario.go_rust_store).
Proof.
  pose proof (update_delete_rejections Scenario.go_rust_store Scenario.bob (ValidId 7%nat)
                None (Scenario.body_with None)) as (Hd & Hu & _).
  pose proof (update_delete_rejections Scenario.go_rust_store Scenario.bob (ValidId 0%nat)
                None (Scenario.body_with None)) as (_ & _ & Hfd & Hfu & _).
  pose proof (update_delete_rejections Scenario.go_rust_store Scenario.bob (ValidId 0%nat)
                None Scenario.short_title_body) as (_ & _ & _ & _ & Hv).
  assert (Hpost : posts Scenario.go_rust_store !! 0%nat
                  = Some (default Scenario.full_post (posts Scenario.go_rust_store !! 0%nat)))
    by (vm_compute; reflexivity).
  split; [apply Hd; vm_compute; reflexivity|].
  split; [apply Hu; vm_compute; reflexivity|].
  split; [apply (Hfd _ _ eq_refl Hpost); vm_compute; intros H; discriminate H|].
  split; [apply (Hfu _ _ eq_refl Hpost);
          [vm_compute; intros H; discriminate H | vm_compute; reflexivity]|].
  apply Hv. vm_compute. intros H. discriminate H.
Defined.

(** ** Delete *)

(** C4: a delete of an existing post by its author first lowers by exactly
    1 the count of every tag of the post and leaves the count of every
    other tag as it was, with the post still in the store, and then
    removes the post, touching no other post and no tag. *)
Theorem delete_post_releases_then_removes (st : Store) (user : User) (o : ObjectId)
    (post : Post) :
  posts st !! o = Some post →
  author post = user_id user →
  let mid := release_tags st post in
  let st' := snd (delete_post st user (ValidId o)) in
  res_code (fst (delete_post st user (ValidId o))) = 200%nat ∧
  (posts mid = posts st ∧
   ∀ i : ObjectId,
     postCountOf mid i
     = (fun c => if bool_decide (i ∈ tags post) then c - 1 else c) <$> postCountOf st i) ∧
  st' = remove_post mid o ∧
  posts st' !! o = None ∧
  (∀ j : ObjectId, j ≠ o → posts st' !! j = posts st !! j) ∧
  tagsColl st' = tagsColl mid.
Proof.
  intros Hpost Hauthor mid st'. subst mid st'.
  apply is_author_true in Hauthor.
  unfold delete_post, Post_findById. rewrite Hpost, Hauthor. cbn [negb fst snd res_code].
  split; [reflexivity|]. split.
  - split; [reflexivity|]. intros i. unfold postCountOf, release_tags. cbn [tagsColl].
    rewrite lookup_Tag_updateMany_inc.
    destruct (tagsColl st !! i) as [t|]; cbn; [|reflexivity].
    destruct (bool_decide (i ∈ tags post)); reflexivity.
  - split; [reflexivity|]. unfold remove_post, Post_findByIdAndDelete. cbn [posts tagsColl].
    split; [apply lookup_delete_eq|]. split; [|reflexivity].
    intros j Hne. now apply lookup_delete_ne.
Qed.

(** The theorem at alice deleting her post tagged go and rust. *)
Lemma delete_post_releases_then_removes_witness :
  res_code (fst (delete_post Scenario.go_rust_store Scenario.alice (ValidId 0%nat)))
  = 200%nat ∧
  posts (snd (delete_post Scenario.go_rust_store Scenario.alice (ValidId 0%nat))) !! 0%nat
  = None ∧
  (postCountOf Scenario.go_rust_store 0%nat = Some 1 ∧
   postCountOf (snd (delete_post Scenario.go_rust_store Scenario.alice (ValidId 0%nat))) 0%nat
   = Some 0) ∧
  (postCountOf Scenario.go_rust_store 1%nat = Some 1 ∧
   postCountOf (snd (delete_post Scenario.go_rust_store Scenario.alice (ValidId 0%nat))) 1%nat
   = Some 0).
Proof.
  destruct (delete_post_releases_then_removes Scenario.go_rust_store Scenario.alice 0%nat
              (default Scenario.full_post (posts Scenario.go_rust_store !! 0%nat)))
    as (Hcode & _ & _ & Hgone & _ & _).
  - vm_compute. reflexivity.
  - vm_compute. reflexivity.
  - split; [exact Hcode|]. split; [exact Hgone|]. vm_compute. repeat split; reflexivity.
Defined.

(** ** Read *)

Lemma Post_findOne_slug_Some (coll : gmap ObjectId Post) (s : string) (o : ObjectId)
    (post : Post) :
  Post_findOne_slug coll s = Some (o, post) → coll !! o = Some post.
Proof.
  unfold Post_findOne_slug. intros H. apply find_some in H as [Hin _].
  now apply list_elem_of_In, elem_of_map_to_list in Hin.
Qed.

(** The post a read finds is a post of the store, under the id found. *)
Lemma find_by_id_or_slug_Some (st : Store) (id : IdParam) (o : ObjectId) (post : Post) :
  find_by_id_or_slug st id = Some (o, post) → posts st !! o = Some post.
Proof.
  unfold find_by_id_or_slug, Post_findById. destruct id as [o'|s].
  - destruct (posts st !! o') as [p|] eqn:E.
    + intros H. inversion H; subst. exact E.
    + apply Post_findOne_slug_Some.
  - apply Post_findOne_slug_Some.
Qed.

(** C6: a read of a published post, by anyone or by no one, answers with
    the post and raises its view count by exactly 1, in the store and in
    the answer, changing nothing else; a read of a post that is not
    published (a draft) leaves the store as it was. *)
Theorem get_post_view_count (st : Store) (user : option User) (id : IdParam)
    (o : ObjectId) (post : Post) :
  find_by_id_or_slug st id = Some (o, post) →
  (status post = Some "published"%string →
     fst (get_post st user id)
     = Json 200 (PostJson None o (inc_viewCount post) (populate_tags (tagsColl st) (tags post))) ∧
     viewCount <$> posts st !! o = Some (viewCount post) ∧
     viewCount <$> posts (snd (get_post st user id)) !! o = Some (viewCount post + 1) ∧
     posts (snd (get_post st user id)) !! o = Some (inc_viewCount post) ∧
     (∀ j : ObjectId, j ≠ o → posts (snd (get_post st user id)) !! j = posts st !! j) ∧
     tagsColl (snd (get_post st user id)) = tagsColl st) ∧
  (status post ≠ Some "published"%string → snd (get_post st user id) = st).
Proof.
  intros Hfind. pose proof (find_by_id_or_slug_Some _ _ _ _ Hfind) as Hpost.
  unfold get_post. rewrite Hfind. unfold is_published. split.
  - intros Hpub. rewrite (bool_decide_eq_true_2 _ Hpub). cbn [negb andb fst snd posts tagsColl].
    unfold Post_findByIdAndUpdate_inc_viewCount.
    split; [reflexivity|]. split; [now rewrite Hpost|].
    rewrite lookup_alter_eq, Hpost. cbn.
    split; [reflexivity|]. split; [reflexivity|]. split; [|reflexivity].
    intros j Hne. now apply lookup_alter_ne.
  - intros Hnot. rewrite (bool_decide_eq_false_2 _ Hnot). cbn [negb andb].
    now destruct (negb (is_admin user)).
Qed.

(** The theorem at an anonymous read of a published post with 4 views, and
    at an admin's read of a draft. *)
Lemma get_post_view_count_witness :
  (viewCount <$> posts Scenario.full_store !! 0%nat = Some 4 ∧
   viewCount <$> posts (snd (get_post Scenario.full_store None (ValidId 0%nat))) !! 0%nat
   = Some 5) ∧
  snd (get_post Scenario.draft_store (Some Scenario.admin) (NotAnId "not yet"))
  = Scenario.draft_store.
Proof.
  split.
  - destruct (get_post_view_count Scenario.full_store None (ValidId 0%nat) 0%nat
                Scenario.full_post) as [Hpub _]; [vm_compute; reflexivity|].
    destruct Hpub as (_ & Hbefore & Hafter & _); [vm_compute; reflexivity|].
    split; [exact Hbefore | exact Hafter].
  - destruct (get_post_view_count Scenario.draft_store (Some Scenario.admin)
                (NotAnId "not yet") 0%nat Scenario.draft_post) as [_ Hdraft];
      [vm_compute; reflexivity|].
    apply Hdraft. vm_compute. intros H. discriminate H.
Defined.

(** ** Like *)

(** C7: a like of a published post, by any user, answers with the like
    count raised by exactly 1 and stores it, changing nothing else, and a
    second like raises it once more; a like of a post that is absent or not
    published (a draft) is answered with "not found" and leaves the store
    as it was. *)
Theorem like_post_counts (st : Store) (user : User) (id : IdParam) :
  (∀ (o : ObjectId) (post : Post),
     id = ValidId o → posts st !! o = Some post → status post = Some "published"%string →
     like_post st user id
     = (Json 200 (LikeJson "Post liked successfully" (likeCount post + 1)),
        {| posts := <[o := inc_likeCount post]> (posts st); tagsColl := tagsColl st |}) ∧
     fst (like_post (snd (like_post st user id)) user id)
     = Json 200 (LikeJson "Post liked successfully" (likeCount post + 2))) ∧
  (post_absent st id →
     NotFoundError (fst (like_post st user id)) ∧ snd (like_post st user id) = st) ∧
  (∀ (o : ObjectId) (post : Post),
     id = ValidId o → posts st !! o = Some post → status post ≠ Some "published"%string →
     NotFoundError (fst (like_post st user id)) ∧ snd (like_post st user id) = st).
Proof.
  split; [|split].
  - intros o post -> Hpost Hpub.
    assert (Hfirst : like_post st user (ValidId o)
                     = (Json 200 (LikeJson "Post liked successfully" (likeCount post + 1)),
                        {| posts := <[o := inc_likeCount post]> (posts st);
                           tagsColl := tagsColl st |})).
    { unfold like_post, Post_findById, is_published. rewrite Hpost.
      rewrite (bool_decide_eq_true_2 _ Hpub). reflexivity. }
    split; [exact Hfirst|]. rewrite Hfirst. cbn [snd].
    unfold like_post, Post_findById, is_published. cbn [posts].
    rewrite lookup_insert_eq. cbn [status inc_likeCount].
    rewrite (bool_decide_eq_true_2 _ Hpub). cbn [negb fst likeCount inc_likeCount].
    replace (likeCount post + 1 + 1) with (likeCount post + 2) by lia. reflexivity.
  - intros Habsent. unfold like_post, Post_findById.
    destruct id as [o|s]; cbn in Habsent; [rewrite Habsent|]; split; reflexivity.
  - intros o post -> Hpost Hnot. unfold like_post, Post_findById, is_published.
    rewrite Hpost, (bool_decide_eq_false_2 _ Hnot). split; reflexivity.
Qed.

(** The theorem at two likes by alice of her published post with 2 likes,
    at a like of the id 7 that no post has, and at a like of a draft. *)
Lemma like_post_counts_witness :
  (fst (like_post Scenario.full_store Scenario.alice (ValidId 0%nat))
   = Json 200 (LikeJson "Post liked successfully" 3) ∧
   fst (like_post (snd (like_post Scenario.full_store Scenario.alice (ValidId 0%nat)))
          Scenario.alice (ValidId 0%nat))
   = Json 200 (LikeJson "Post liked successfully" 4)) ∧
  NotFoundError (fst (like_post Scenario.full_store Scenario.alice (ValidId 7%nat))) ∧
  (NotFoundError (fst (like_post Scenario.draft_store Scenario.alice (ValidId 0%nat))) ∧
   snd (like_post Scenario.draft_store Scenario.alice (ValidId 0%nat)) = Scenario.draft_store).
Proof.
  split; [|split].
  - destruct (like_post_counts Scenario.full_store Scenario.alice (ValidId 0%nat))
      as (Hpub & _ & _).
    destruct (Hpub 0%nat Scenario.full_post eq_refl) as [H1 H2];
      [vm_compute; reflexivity | vm_compute; reflexivity |].
    split; [now rewrite H1 | exact H2].
  - destruct (like_post_counts Scenario.full_store Scenario.alice (ValidId 7%nat))
      as (_ & Habsent & _).
    apply Habsent. vm_compute. reflexivity.
  - destruct (like_post_counts Scenario.draft_store Scenario.alice (ValidId 0%nat))
      as (_ & _ & Hdraft).
    apply (Hdraft 0%nat Scenario.draft_post eq_refl); [vm_compute; reflexivity|].
    vm_compute. intros H. discriminate H.
Defined.

(** ** Error responses *)


(** The catch branch of the AI status route sends the message of the error
    whatever the environment is. *)
Lemma ai_status_catch_exposes (node_env : option string) (e : JsError) :
  Catch.exposes_detail (Catch.catch_response AiStatus node_env e) e.
Proof. cbn. now left. Qed.

(** In production the catch branch of the AI status route answers an error
    with the message of that error, while the catch branch of the list
    route, for the same error in the same environment, sends the fixed text
    only. *)
Lemma ai_status_catch_leaks_in_production :
  Catch.catch_response AiStatus (Some "production"%string) Scenario.boom
  = Json 500 (ErrorJson "Failed to check AI service status"
                (Some "aiService.isAvailable is not a function"%string) None) ∧
  Catch.exposes_detail
    (Catch.catch_response AiStatus (Some "production"%string) Scenario.boom) Scenario.boom ∧
  ¬ Catch.generic_only
      (Catch.catch_response AiStatus (Some "production"%string) Scenario.boom) ∧
  Catch.generic_only (Catch.catch_response ListPosts (Some "production"%string) Scenario.boom).
Proof.
  cbn. split; [reflexivity|]. split; [now left|]. split.
  - intros [[H|H] _]; discriminate H.
  - split; [right; reflexivity | reflexivity].
Qed.




(** * Further properties *)

Import JsText.

(** ** Strings *)

Lemma split_nonempty (sep : ascii) (s : string) : split sep s ≠ [].
Proof.
  destruct s as [|c r]; simpl; [discriminate|].
  destruct (bool_decide (c = sep)); [discriminate|].
  destruct (split sep r); discriminate.
Qed.

Lemma join_cons (sep : ascii) (x y : string) (l : list string) :
  join sep (x :: y :: l) = x +:+ String sep (join sep (y :: l)).
Proof. reflexivity. Qed.

(** Joining the pieces of a split with the separator gives the string back. *)
Lemma join_split (sep : ascii) (s : string) : join sep (split sep s) = s.
Proof.
  induction s as [|c r IH]; [reflexivity|].
  simpl split. destruct (bool_decide (c = sep)) eqn:E.
  - apply bool_decide_eq_true in E. subst c.
    destruct (split sep r) as [|w ws] eqn:Hs; [now apply split_nonempty in Hs|].
    rewrite join_cons, IH. reflexivity.
  - destruct (split sep r) as [|w ws] eqn:Hs; [now apply split_nonempty in Hs|].
    destruct ws as [|w' ws'].
    + simpl in *. now rewrite IH.
    + rewrite <- IH, !join_cons. reflexivity.
Qed.

Lemma split_no_sep (sep : ascii) (x : string) :
  has_char sep x = false → split sep x = [x].
Proof.
  induction x as [|c r IH]; [reflexivity|]. simpl.
  intros H. apply orb_false_iff in H as [Hc Hr].
  rewrite Hc, (IH Hr). reflexivity.
Qed.

Lemma split_app_sep (sep : ascii) (x rest : string) :
  has_char sep x = false →
  split sep (x +:+ String sep rest) = x :: split sep rest.
Proof.
  induction x as [|c r IH]; simpl.
  - intros _. now rewrite bool_decide_eq_true_2.
  - intros H. apply orb_false_iff in H as [Hc Hr].
    rewrite Hc, (IH Hr). reflexivity.
Qed.

(** Splitting a join gives the list back, when the list is not empty and
    no element holds the separator. *)
Lemma split_join (sep : ascii) (l : list string) :
  l ≠ [] →
  Forall (fun x => has_char sep x = false) l →
  split sep (join sep l) = l.
Proof.
  intros Hne Hall. induction Hall as [|x l Hx Hall IH]; [contradiction|].
  destruct l as [|y l'].
  - simpl. now apply split_no_sep.
  - rewrite join_cons, split_app_sep by exact Hx.
    f_equal. apply IH. discriminate.
Qed.

(** X22: [split] and [join] undo each other: the pieces of a string, joined
    with the separator, are the string; and a list that is not empty and
    whose elements do not hold the separator comes back from its join. The
    empty list does not: its join is the empty string, which splits into
    one empty piece. *)
Theorem split_join_round_trip (sep : ascii) :
  (∀ s : string, join sep (split sep s) = s) ∧
  (∀ l : list string,
     l ≠ [] → Forall (fun x => has_char sep x = false) l → split sep (join sep l) = l) ∧
  split sep (join sep []) = [EmptyString].
Proof.
  split; [apply join_split|]. split; [apply split_join | reflexivity].
Qed.

Lemma split_join_round_trip_witness :
  split ","%char (join ","%char ["Go"; "go"; " GO "]%string) = ["Go"; "go"; " GO "]%string.
Proof.
  apply (proj1 (proj2 (split_join_round_trip ","%char))); [discriminate|].
  repeat constructor.
Defined.







Lemma lower_char_idempotent (c : ascii) : lower_char (lower_char c) = lower_char c.
Proof. destruct c as [[] [] [] [] [] [] [] []]; reflexivity. Qed.

Lemma is_white_space_lower_char (c : ascii) :
  is_white_space (lower_char c) = is_white_space c.
Proof. destruct c as [[] [] [] [] [] [] [] []]; reflexivity. Qed.

Lemma toLowerCase_trimStart (s : string) :
  toLowerCase (trimStart s) = trimStart (toLowerCase s).
Proof.
  induction s as [|c r IH]; [reflexivity|].
  simpl. rewrite is_white_space_lower_char.
  now destruct (is_white_space c).
Qed.

Lemma toLowerCase_trimEnd (s : string) :
  toLowerCase (trimEnd s) = trimEnd (toLowerCase s).
Proof.
  induction s as [|c r IH]; [reflexivity|].
  simpl. rewrite <- IH, is_white_space_lower_char.
  destruct (trimEnd r); [now destruct (is_white_space c) | reflexivity].
Qed.

(** X24: on strings of code units below U+0100, lower-casing keeps the
    length, changes nothing when applied again, and commutes with [trim]. *)
Theorem toLowerCase_spec (s : string) :
  String.length (toLowerCase s) = String.length s ∧
  toLowerCase (toLowerCase s) = toLowerCase s ∧
  toLowerCase (trim s) = trim (toLowerCase s).
Proof.
  split; [|split].
  - induction s as [|c r IH]; [reflexivity|]. simpl. now rewrite IH.
  - induction s as [|c r IH]; [reflexivity|]. simpl.
    now rewrite lower_char_idempotent, IH.
  - unfold trim. now rewrite toLowerCase_trimEnd, toLowerCase_trimStart.
Qed.

(** ** The tag loop, continued *)

Import Invariant.

Lemma Tag_findOne_None (coll : gmap ObjectId Tag) (name : string) (i : ObjectId) (t : Tag) :
  Tag_findOne coll name = None → coll !! i = Some t → tag_name t ≠ name.
Proof.
  unfold Tag_findOne. intros Hnone Hi Hname.
  assert (Hin : In (i, t) (map_to_list coll))
    by now apply list_elem_of_In, elem_of_map_to_list.
  pose proof (find_none _ _ Hnone _ Hin) as Hf. cbn in Hf.
  apply bool_decide_eq_false in Hf. contradiction.
Qed.

Lemma Tag_findOne_complete (coll : gmap ObjectId Tag) (name : string) (i : ObjectId) (t : Tag) :
  coll !! i = Some t → tag_name t = name → is_Some (Tag_findOne coll name).
Proof.
  intros Hi Hname. destruct (Tag_findOne coll name) eqn:E; [eauto|].
  now destruct (Tag_findOne_None _ _ _ _ E Hi).
Qed.

Lemma names_unique_inj (coll : gmap ObjectId Tag) (i j : ObjectId) (ti tj : Tag) :
  names_unique coll →
  coll !! i = Some ti → coll !! j = Some tj → tag_name ti = tag_name tj → i = j.
Proof.
  unfold names_unique. intros Hnd Hi Hj Hname.
  apply elem_of_map_to_list in Hi, Hj.
  revert Hnd Hi Hj. generalize (map_to_list coll). intros l.
  induction l as [|[k t] l IH]; intros Hnd Hi Hj; [now apply elem_of_nil in Hi|].
  rewrite fmap_cons in Hnd. apply NoDup_cons in Hnd as [Hk Hnd].
  apply elem_of_cons in Hi as [Hi|Hi]; apply elem_of_cons in Hj as [Hj|Hj].
  - congruence.
  - inversion Hi; subst. exfalso. apply Hk. cbn. rewrite Hname.
    apply (list_elem_of_fmap_2 (fun d => tag_name (snd d)) l (j, tj) Hj).
  - inversion Hj; subst. exfalso. apply Hk. cbn. rewrite <- Hname.
    apply (list_elem_of_fmap_2 (fun d => tag_name (snd d)) l (i, ti) Hi).
  - now apply IH.
Qed.

Lemma names_unique_insert (coll : gmap ObjectId Tag) (i : ObjectId) (t : Tag) :
  names_unique coll → coll !! i = None →
  (∀ j tj, coll !! j = Some tj → tag_name tj ≠ tag_name t) →
  names_unique (<[i := t]> coll).
Proof.
  unfold names_unique. intros Hnd Hi Hnew.
  rewrite (map_to_list_insert _ _ _ Hi), fmap_cons. apply NoDup_cons. split; [|exact Hnd].
  intros Hin. apply list_elem_of_fmap in Hin as ([j tj] & Hname & Hj).
  apply elem_of_map_to_list in Hj. now apply (Hnew j tj Hj).
Qed.

(** The loop keeps tag names unique. *)
Lemma processTags_names_unique (names : list string) :
  ∀ (coll coll' : gmap ObjectId Tag) (ids : list ObjectId),
    processTags names coll = (ids, coll') → names_unique coll → names_unique coll'.
Proof.
  induction names as [|n rest IH]; intros coll coll' ids Hrun Hu; simpl in Hrun.
  - now inversion Hrun; subst.
  - destruct (truthy n); [|eapply IH; eassumption].
    destruct (Tag_findOne coll (toLowerCase n)) as [[j tj]|] eqn:Hfind.
    + destruct (processTags rest coll) as [ids0 coll0] eqn:Hrest.
      inversion Hrun; subst. eapply IH; eassumption.
    + destruct (processTags rest (<[newObjectId coll := new_Tag (toLowerCase n)]> coll))
        as [ids0 coll0] eqn:Hrest.
      inversion Hrun; subst. eapply IH; [exact Hrest|].
      apply names_unique_insert; [exact Hu | apply newObjectId_fresh |].
      intros j tj Hj. cbn. eapply Tag_findOne_None; eassumption.
Qed.

(** The truthy names of a list, in order. *)
Lemma processTags_resolves_all (names : list string) :
  ∀ (coll coll' : gmap ObjectId Tag) (ids : list ObjectId),
    processTags names coll = (ids, coll') →
    Forall2 (fun n i => ∃ t, coll' !! i = Some t ∧ tag_name t = toLowerCase n)
            (List.filter truthy names) ids.
Proof.
  induction names as [|n rest IH]; intros coll coll' ids Hrun; simpl in Hrun.
  - inversion Hrun; subst. constructor.
  - simpl. destruct (truthy n); [|eapply IH; eassumption].
    destruct (Tag_findOne coll (toLowerCase n)) as [[j tj]|] eqn:Hfind.
    + destruct (processTags rest coll) as [ids0 coll0] eqn:Hrest.
      inversion Hrun; subst. constructor; [|eapply IH; eassumption].
      apply Tag_findOne_Some in Hfind as [Hj Hname].
      exists tj. split; [|exact Hname]. eapply processTags_preserves; eassumption.
    + destruct (processTags rest (<[newObjectId coll := new_Tag (toLowerCase n)]> coll))
        as [ids0 coll0] eqn:Hrest.
      inversion Hrun; subst. constructor; [|eapply IH; eassumption].
      exists (new_Tag (toLowerCase n)). split; [|reflexivity].
      eapply processTags_preserves; [exact Hrest | apply lookup_insert_eq].
Qed.

(** On a collection that already has a tag for every name, under the ids
    given, the loop adds nothing and collects those ids. *)
Lemma processTags_all_found (names : list string) :
  ∀ (coll : gmap ObjectId Tag) (ids : list ObjectId),
    names_unique coll →
    Forall2 (fun n i => ∃ t, coll !! i = Some t ∧ tag_name t = toLowerCase n)
            (List.filter truthy names) ids →
    processTags names coll = (ids, coll).
Proof.
  induction names as [|n rest IH]; intros coll ids Hu Hall; simpl in *.
  - now inversion Hall.
  - destruct (truthy n); [|now apply IH].
    inversion Hall as [|n' i ns ids' (t & Hi & Hname) Hrest]; subst.
    destruct (Tag_findOne_complete _ _ _ _ Hi Hname) as [[j tj] Hfind].
    rewrite Hfind. pose proof (Tag_findOne_Some _ _ _ _ Hfind) as [Hj Hjname].
    assert (j = i) by (eapply names_unique_inj; eauto; congruence). subst j.
    now rewrite (IH coll ids' Hu Hrest).
Qed.

(** X1: every name that is not empty is resolved, in order, to the id of a
    tag of that name in lower case; the tags that were there are left as
    they were. *)
Theorem tag_loop_resolves_every_name (names : list string) (coll : gmap ObjectId Tag) :
  Forall2 (fun n i => ∃ t, snd (processTags names coll) !! i = Some t ∧
                           tag_name t = toLowerCase n)
          (List.filter truthy names) (fst (processTags names coll)) ∧
  (∀ (i : ObjectId) (t : Tag),
     coll !! i = Some t → snd (processTags names coll) !! i = Some t).
Proof.
  destruct (processTags names coll) as [ids coll'] eqn:Hrun. cbn [fst snd]. split.
  - eapply processTags_resolves_all; eassumption.
  - intros i t. eapply processTags_preserves; eassumption.
Qed.

(** X2: when tag names are unique they stay unique under the loop, and a
    second pass over the same names adds no tag and collects the same ids. *)
Theorem tag_loop_second_pass (names : list string) (coll : gmap ObjectId Tag) :
  names_unique coll →
  names_unique (snd (processTags names coll)) ∧
  processTags names (snd (processTags names coll)) = processTags names coll.
Proof.
  intros Hu. destruct (processTags names coll) as [ids coll'] eqn:Hrun. cbn [fst snd].
  assert (Hu' : names_unique coll') by (eapply processTags_names_unique; eassumption).
  split; [exact Hu'|].
  apply processTags_all_found; [exact Hu'|].
  eapply processTags_resolves_all; eassumption.
Qed.

Lemma tag_loop_second_pass_witness :
  names_unique (tagsColl Scenario.go_rust_store) ∧
  names_unique (snd (processTags ["rust"; "Python"; "python"]%string
                       (tagsColl Scenario.go_rust_store))) ∧
  processTags ["rust"; "Python"; "python"]%string
    (snd (processTags ["rust"; "Python"; "python"]%string (tagsColl Scenario.go_rust_store)))
  = processTags ["rust"; "Python"; "python"]%string (tagsColl Scenario.go_rust_store).
Proof.
  assert (Hu : names_unique (tagsColl Scenario.go_rust_store)).
  { unfold names_unique. apply (bool_decide_unpack _). vm_compute. exact I. }
  split; [exact Hu|]. now apply tag_loop_second_pass.
Defined.

(** ** Reference counts *)

Lemma referencing_insert (coll : gmap ObjectId Post) (o : ObjectId) (p : Post) (i : ObjectId) :
  referencing (<[o := p]> coll) i
  = (referencing (delete o coll) i + (if decide (i ∈ tags p) then 1 else 0))%nat.
Proof.
  unfold referencing. rewrite map_filter_insert. cbn [snd].
  destruct (decide (i ∈ tags p)) as [Hin|Hnot].
  - rewrite map_filter_delete, <- insert_delete_eq, map_size_insert_None;
      [lia | apply lookup_delete_eq].
  - lia.
Qed.

Lemma referencing_lookup (coll : gmap ObjectId Post) (o : ObjectId) (p : Post) (i : ObjectId) :
  coll !! o = Some p →
  referencing coll i
  = (referencing (delete o coll) i + (if decide (i ∈ tags p) then 1 else 0))%nat.
Proof.
  intros Hp. rewrite <- (insert_id coll o p Hp) at 1. apply referencing_insert.
Qed.

Lemma referencing_insert_fresh (coll : gmap ObjectId Post) (o : ObjectId) (p : Post)
    (i : ObjectId) :
  coll !! o = None →
  referencing (<[o := p]> coll) i
  = (referencing coll i + (if decide (i ∈ tags p) then 1 else 0))%nat.
Proof.
  intros Hnone. rewrite referencing_insert, (delete_id _ _ Hnone). reflexivity.
Qed.

(** No post refers to an id that is not the id of a tag. *)
Lemma referencing_absent (st : Store) (i : ObjectId) :
  refs_exist st → tagsColl st !! i = None → referencing (posts st) i = 0%nat.
Proof.
  intros Hrefs Hnone. unfold referencing.
  apply map_size_empty_iff, map_empty. intros o.
  apply map_lookup_filter_None.
  destruct (posts st !! o) as [p|] eqn:Hp; [right|now left].
  intros p' Hp' Hin. inversion Hp'; subst p'. cbn in Hin.
  pose proof (Hrefs o p Hp) as Hall. rewrite Forall_forall in Hall.
  destruct (Hall i Hin) as [t Ht]. rewrite Ht in Hnone. discriminate Hnone.
Qed.

Lemma Tag_updateMany_inc_is_Some (ids : list ObjectId) (d : Z) (coll : gmap ObjectId Tag)
    (i : ObjectId) :
  is_Some (Tag_updateMany_inc ids d coll !! i) ↔ is_Some (coll !! i).
Proof.
  rewrite lookup_Tag_updateMany_inc. apply fmap_is_Some.
Qed.

(** After the tag loop every tag, old or new, has the count of the posts
    that refer to it, when the store was consistent before. *)
Lemma resolved_counts (st : Store) (names : list string) (ids : list ObjectId)
    (coll1 : gmap ObjectId Tag) (i : ObjectId) (t : Tag) :
  processTags names (tagsColl st) = (ids, coll1) →
  counts_consistent st → refs_exist st →
  coll1 !! i = Some t →
  postCount t = Z.of_nat (referencing (posts st) i).
Proof.
  intros Hrun Hcounts Hrefs Hi.
  destruct (tagsColl st !! i) as [t0|] eqn:H0.
  - rewrite (processTags_preserves _ _ _ _ _ _ Hrun H0) in Hi. inversion Hi; subst t0.
    now apply Hcounts.
  - destruct (processTags_created _ _ _ _ _ _ Hrun H0 Hi) as [_ Hzero].
    rewrite Hzero, (referencing_absent st i Hrefs H0). reflexivity.
Qed.

Lemma resolved_refs (st : Store) (names : list string) (ids : list ObjectId)
    (coll1 : gmap ObjectId Tag) (p : Post) :
  processTags names (tagsColl st) = (ids, coll1) →
  Forall (fun i => is_Some (tagsColl st !! i)) (tags p) →
  Forall (fun i => is_Some (coll1 !! i)) (tags p).
Proof.
  intros Hrun Hall. eapply Forall_impl; [exact Hall|]. intros i [t Ht]. exists t.
  eapply processTags_preserves; eassumption.
Qed.

(** ** Consistency under create and delete *)

(** X3: a create request, accepted or not, leaves a consistent store
    consistent: every tag's count is still the number of posts that refer
    to it, and every reference of a post is still the id of a tag. *)
Theorem create_post_keeps_consistency (st : Store) (user : User) (file : option string)
    (b : Body) :
  counts_consistent st → refs_exist st →
  counts_consistent (snd (create_post st user file b)) ∧
  refs_exist (snd (create_post st user file b)).
Proof.
  intros Hcounts Hrefs. unfold create_post.
  destruct (postValidation b); [|now split].
  destruct (processTags (tagNames (b_tags b)) (tagsColl st)) as [tagIds coll1] eqn:Hrun.
  cbn [snd]. unfold Post_save. split.
  - intros i t' Hi'. cbn [posts tagsColl] in *.
    rewrite lookup_Tag_updateMany_inc in Hi'.
    destruct (coll1 !! i) as [t1|] eqn:H1; [|discriminate Hi'].
    cbn in Hi'. inversion Hi'; subst t'.
    rewrite (referencing_insert_fresh _ _ _ _ (newObjectId_fresh (posts st))). cbn [tags].
    pose proof (resolved_counts st _ _ _ i t1 Hrun Hcounts Hrefs H1) as Hc.
    case_bool_decide; case_decide; try contradiction; cbn; lia.
  - intros o p Hp. cbn [posts tagsColl] in *.
    destruct (decide (o = newObjectId (posts st))) as [->|Hne].
    + rewrite lookup_insert_eq in Hp. inversion Hp; subst p. cbn [tags].
      apply Forall_forall. intros i Hin. apply Tag_updateMany_inc_is_Some.
      eapply processTags_ids_exist; eassumption.
    + rewrite lookup_insert_ne in Hp by congruence.
      eapply Forall_impl; [exact (resolved_refs st _ _ _ p Hrun (Hrefs o p Hp))|].
      intros i Hi. now apply Tag_updateMany_inc_is_Some.
Qed.

(** X4: a delete request, accepted or not, leaves a consistent store
    consistent. *)
Theorem delete_post_keeps_consistency (st : Store) (user : User) (id : IdParam) :
  counts_consistent st → refs_exist st →
  counts_consistent (snd (delete_post st user id)) ∧
  refs_exist (snd (delete_post st user id)).
Proof.
  intros Hcounts Hrefs. unfold delete_post, Post_findById.
  destruct id as [o|s]; [|now split].
  destruct (posts st !! o) as [post|] eqn:Hpost; [|now split].
  destruct (negb (is_author post user)); [now split|].
  cbn [snd]. unfold remove_post, release_tags, Post_findByIdAndDelete. cbn [posts tagsColl].
  split.
  - intros i t' Hi'. cbn [posts tagsColl] in *.
    rewrite lookup_Tag_updateMany_inc in Hi'.
    destruct (tagsColl st !! i) as [t|] eqn:Ht; [|discriminate Hi'].
    cbn in Hi'. inversion Hi'; subst t'.
    pose proof (Hcounts i t Ht) as Hc. cbn in Hc.
    rewrite (referencing_lookup _ _ _ i Hpost) in Hc.
    case_bool_decide; case_decide; try contradiction; cbn; lia.
  - intros o' p Hp. cbn [posts tagsColl] in *.
    apply lookup_delete_Some in Hp as [_ Hp].
    eapply Forall_impl; [exact (Hrefs o' p Hp)|].
    intros i Hi. now apply Tag_updateMany_inc_is_Some.
Qed.

Lemma consistent_go_rust_store :
  counts_consistent Scenario.go_rust_store ∧ refs_exist Scenario.go_rust_store.
Proof.
  split; apply (bool_decide_unpack _); vm_compute; exact I.
Qed.

Lemma create_post_keeps_consistency_witness :
  counts_consistent (snd (create_post Scenario.go_rust_store Scenario.bob None
                            (Scenario.body_with (Some (TagsString "rust, Python"))))) ∧
  refs_exist (snd (create_post Scenario.go_rust_store Scenario.bob None
                     (Scenario.body_with (Some (TagsString "rust, Python"))))).
Proof.
  apply create_post_keeps_consistency.
  - apply (bool_decide_unpack _). vm_compute. exact I.
  - apply (bool_decide_unpack _). vm_compute. exact I.
Defined.

Lemma delete_post_keeps_consistency_witness :
  counts_consistent (snd (delete_post Scenario.go_rust_store Scenario.alice (ValidId 0%nat))) ∧
  refs_exist (snd (delete_post Scenario.go_rust_store Scenario.alice (ValidId 0%nat))).
Proof.
  apply delete_post_keeps_consistency.
  - apply (bool_decide_unpack _). vm_compute. exact I.
  - apply (bool_decide_unpack _). vm_compute. exact I.
Defined.

(** ** The drift of the counts under update *)

(** X5: after an accepted update by the author on a consistent store, every
    reference of a post is still the id of a tag, and the count of a tag
    is the number of posts that refer to it less 1 when the post had the
    tag before and has it after, and exactly that number otherwise; so the
    store stays consistent when the post keeps none of its tags. *)
Theorem update_post_count_drift (st : Store) (user : User) (o : ObjectId)
    (file : option string) (b : Body) (post : Post) :
  counts_consistent st → refs_exist st →
  postValidation b = [] →
  posts st !! o = Some post →
  author post = user_id user →
  refs_exist (snd (update_post st user (ValidId o) file b)) ∧
  (∀ (i : ObjectId) (t' : Tag),
     tagsColl (snd (update_post st user (ValidId o) file b)) !! i = Some t' →
     postCount t'
     = Z.of_nat (referencing (posts (snd (update_post st user (ValidId o) file b))) i)
       - (if bool_decide (i ∈ tags post ∧
                          i ∈ fst (processTags (tagNames (b_tags b)) (tagsColl st)))
          then 1 else 0)) ∧
  ((∀ i : ObjectId,
      i ∈ tags post → i ∉ fst (processTags (tagNames (b_tags b)) (tagsColl st))) →
   counts_consistent (snd (update_post st user (ValidId o) file b))).
Proof.
  intros Hcounts Hrefs Hvalid Hpost Hauthor.
  destruct (update_post_accepted st user o file b post Hvalid Hpost Hauthor)
    as (tagIds & coll1 & Hrun & -> & _).
  rewrite Hrun. cbn [fst posts tagsColl].
  assert (Hdrift : ∀ (i : ObjectId) (t' : Tag),
    Tag_updateMany_inc (addedTagIds (tags post) tagIds) 1
      (Tag_updateMany_inc (tags post) (-1) coll1) !! i = Some t' →
    postCount t'
    = Z.of_nat (referencing (<[o := assign_fields post file b tagIds]> (posts st)) i)
      - (if bool_decide (i ∈ tags post ∧ i ∈ tagIds) then 1 else 0)).
  { intros i t' Hi'. rewrite !lookup_Tag_updateMany_inc in Hi'.
    destruct (coll1 !! i) as [t1|] eqn:H1; [|discriminate Hi'].
    cbn in Hi'. inversion Hi'; subst t'. clear Hi'.
    pose proof (resolved_counts st _ _ _ i t1 Hrun Hcounts Hrefs H1) as Hc.
    rewrite (referencing_lookup _ _ _ i Hpost) in Hc.
    rewrite referencing_insert. cbn [tags assign_fields].
    pose proof (elem_of_addedTagIds (tags post) tagIds i) as Hadded.
    repeat case_bool_decide; repeat case_decide; cbn; try lia; tauto. }
  split; [|split].
  - intros o' p Hp. cbn [posts tagsColl] in *.
    apply Forall_forall. intros i Hin. rewrite !Tag_updateMany_inc_is_Some.
    destruct (decide (o' = o)) as [->|Hne].
    + rewrite lookup_insert_eq in Hp. inversion Hp; subst p. cbn [tags assign_fields] in Hin.
      eapply processTags_ids_exist; eassumption.
    + rewrite lookup_insert_ne in Hp by congruence.
      pose proof (resolved_refs st _ _ _ p Hrun (Hrefs o' p Hp)) as Hall.
      rewrite Forall_forall in Hall. now apply Hall.
  - exact Hdrift.
  - intros Hdisjoint i t' Hi'. cbn [posts tagsColl] in *.
    rewrite (Hdrift i t' Hi').
    rewrite bool_decide_eq_false_2; [lia|].
    intros [Hold Hnew]. now apply (Hdisjoint i).
Qed.

(** The theorem at alice's update of her post tagged go and rust to the one
    tag python. *)
Lemma update_post_count_drift_witness :
  counts_consistent
    (snd (update_post Scenario.go_rust_store Scenario.alice (ValidId 0%nat) None
            (Scenario.body_with (Some (TagsString "python"))))).
Proof.
  refine (proj2 (proj2 (update_post_count_drift Scenario.go_rust_store Scenario.alice 0%nat
            None (Scenario.body_with (Some (TagsString "python")))
            (default Scenario.full_post (posts Scenario.go_rust_store !! 0%nat))
            _ _ _ _ _)) _).
  - apply (bool_decide_unpack _). vm_compute. exact I.
  - apply (bool_decide_unpack _). vm_compute. exact I.
  - vm_compute. reflexivity.
  - vm_compute. reflexivity.
  - vm_compute. reflexivity.
  - intros i Hin. apply (bool_decide_unpack _).
    assert (Hi : i = 0%nat ∨ i = 1%nat).
    { vm_compute in Hin. apply elem_of_cons in Hin as [->|Hin]; [now left|].
      apply elem_of_cons in Hin as [->|Hin]; [now right|]. now apply elem_of_nil in Hin. }
    destruct Hi as [->| ->]; vm_compute; exact I.
Defined.

(** ** How the handlers compose *)

Lemma inc_postCount_undo (t : Tag) : inc_postCount (-1) (inc_postCount 1 t) = t.
Proof.
  destruct t as [n c]. unfold inc_postCount. cbn. f_equal. lia.
Qed.

(** X6: deleting the post a create request has just made, by its author, puts
    the posts back as they were and leaves the tags as the tag loop left
    them: the old ones as before, the ones it made with count 0. *)
Theorem create_then_delete_restores (st : Store) (user : User) (file : option string)
    (b : Body) :
  postValidation b = [] →
  snd (delete_post (snd (create_post st user file b)) user
         (ValidId (newObjectId (posts st))))
  = {| posts := posts st;
       tagsColl := snd (processTags (tagNames (b_tags b)) (tagsColl st)) |} ∧
  (∀ (i : ObjectId) (t : Tag),
     tagsColl st !! i = Some t →
     snd (processTags (tagNames (b_tags b)) (tagsColl st)) !! i = Some t) ∧
  (∀ (i : ObjectId) (t : Tag),
     tagsColl st !! i = None →
     snd (processTags (tagNames (b_tags b)) (tagsColl st)) !! i = Some t →
     postCount t = 0).
Proof.
  intros Hvalid. unfold create_post. rewrite Hvalid.
  destruct (processTags (tagNames (b_tags b)) (tagsColl st)) as [tagIds coll1] eqn:Hrun.
  cbn [snd]. split; [|split].
  - unfold delete_post, Post_findById, Post_save. cbn [posts tagsColl].
    rewrite lookup_insert_eq.
    unfold is_author. cbn [author]. rewrite bool_decide_eq_true_2 by reflexivity.
    cbn [negb snd]. unfold remove_post, release_tags, Post_findByIdAndDelete.
    cbn [posts tagsColl tags]. f_equal.
    + apply delete_insert_id, newObjectId_fresh.
    + apply map_eq. intros i. rewrite !lookup_Tag_updateMany_inc.
      destruct (coll1 !! i) as [t|]; [|reflexivity]. cbn.
      destruct (bool_decide (i ∈ tagIds)); [|reflexivity].
      now rewrite inc_postCount_undo.
  - intros i t. eapply processTags_preserves; eassumption.
  - intros i t Hnone Hi. eapply processTags_created; eassumption.
Qed.

Lemma create_then_delete_restores_witness :
  posts (snd (delete_post
                (snd (create_post Scenario.go_rust_store Scenario.bob None
                        (Scenario.body_with (Some (TagsString "go,python")))))
                Scenario.bob (ValidId (newObjectId (posts Scenario.go_rust_store)))))
  = posts Scenario.go_rust_store.
Proof.
  destruct (create_then_delete_restores Scenario.go_rust_store Scenario.bob None
              (Scenario.body_with (Some (TagsString "go,python")))) as [Heq _].
  - vm_compute. reflexivity.
  - rewrite Heq. reflexivity.
Defined.



(** ** What the handlers leave alone *)

Lemma Tag_updateMany_inc_name (ids : list ObjectId) (d : Z) (coll : gmap ObjectId Tag)
    (i : ObjectId) (t : Tag) :
  coll !! i = Some t →
  ∃ t', Tag_updateMany_inc ids d coll !! i = Some t' ∧ tag_name t' = tag_name t.
Proof.
  intros Hi. rewrite lookup_Tag_updateMany_inc, Hi. cbn.
  eexists. split; [reflexivity|]. now destruct (bool_decide (i ∈ ids)).
Qed.

(** X8: no request removes or renames a tag: a tag of the store is there, under
    its id and name, after a create, an update, a delete, a like and a
    read, whatever the request. *)
Theorem handlers_keep_tags (st : Store) (user : User) (anyone : option User) (id : IdParam)
    (file : option string) (b : Body) (i : ObjectId) (t : Tag) :
  tagsColl st !! i = Some t →
  (∃ t', tagsColl (snd (create_post st user file b)) !! i = Some t' ∧
         tag_name t' = tag_name t) ∧
  (∃ t', tagsColl (snd (update_post st user id file b)) !! i = Some t' ∧
         tag_name t' = tag_name t) ∧
  (∃ t', tagsColl (snd (delete_post st user id)) !! i = Some t' ∧
         tag_name t' = tag_name t) ∧
  tagsColl (snd (like_post st user id)) !! i = Some t ∧
  tagsColl (snd (get_post st anyone id)) !! i = Some t.
Proof.
  intros Hi.
  assert (Hsame : ∃ t', tagsColl st !! i = Some t' ∧ tag_name t' = tag_name t)
    by (exists t; now split).
  split; [|split; [|split; [|split]]].
  - unfold create_post. destruct (postValidation b); [|exact Hsame].
    destruct (processTags (tagNames (b_tags b)) (tagsColl st)) as [tagIds coll1] eqn:Hrun.
    cbn [snd tagsColl]. apply Tag_updateMany_inc_name.
    eapply processTags_preserves; eassumption.
  - unfold update_post, Post_findById. destruct (postValidation b); [|exact Hsame].
    destruct id as [o|s]; [|exact Hsame].
    destruct (posts st !! o) as [post|]; [|exact Hsame].
    destruct (negb (is_author post user)); [exact Hsame|].
    destruct (processTags (tagNames (b_tags b)) (tagsColl st)) as [tagIds coll1] eqn:Hrun.
    cbn [snd tagsColl].
    destruct (Tag_updateMany_inc_name (removedTagIds (tags post) tagIds) (-1) coll1 i t)
      as (t1 & H1 & Hn1); [eapply processTags_preserves; eassumption|].
    destruct (Tag_updateMany_inc_name (addedTagIds (tags post) tagIds) 1 _ i t1 H1)
      as (t2 & H2 & Hn2).
    exists t2. split; [exact H2 | congruence].
  - unfold delete_post, Post_findById. destruct id as [o|s]; [|exact Hsame].
    destruct (posts st !! o) as [post|]; [|exact Hsame].
    destruct (negb (is_author post user)); [exact Hsame|].
    cbn [snd remove_post release_tags tagsColl]. now apply Tag_updateMany_inc_name.
  - unfold like_post, Post_findById. destruct id as [o|s]; [|exact Hi].
    destruct (posts st !! o) as [post|]; [|exact Hi].
    destruct (negb (is_published post)); exact Hi.
  - unfold get_post. destruct (find_by_id_or_slug st id) as [[o post]|]; [|exact Hi].
    destruct (negb (is_published post) && negb (is_admin anyone)); [exact Hi|].
    destruct (is_published post); exact Hi.
Qed.

Lemma handlers_keep_tags_witness :
  ∃ t', tagsColl (snd Scenario.rust_python_update) !! 0%nat = Some t' ∧
        tag_name t' = "go"%string.
Proof.
  destruct (handlers_keep_tags Scenario.go_rust_store Scenario.alice None (ValidId 0%nat)
              None (Scenario.body_with (Some (TagsString "rust,python"))) 0%nat
              {| tag_name := "go"; postCount := 1 |}) as (_ & Hupd & _).
  - vm_compute. reflexivity.
  - exact Hupd.
Defined.

(** X9: a request writes no post but its own: a create leaves every post of
    the store as it was (it never overwrites one), and an update or a like
    leaves every post but the addressed one as it was. *)
Theorem handlers_write_one_post (st : Store) (user : User) (file : option string) (b : Body) :
  (∀ (j : ObjectId) (p : Post),
     posts st !! j = Some p → posts (snd (create_post st user file b)) !! j = Some p) ∧
  (∀ (o j : ObjectId),
     j ≠ o →
     posts (snd (update_post st user (ValidId o) file b)) !! j = posts st !! j ∧
     posts (snd (like_post st user (ValidId o))) !! j = posts st !! j) ∧
  (∀ s : string,
     snd (update_post st user (NotAnId s) file b) = st ∧
     snd (like_post st user (NotAnId s)) = st).
Proof.
  split; [|split].
  - intros j p Hj. unfold create_post. destruct (postValidation b); [|exact Hj].
    destruct (processTags (tagNames (b_tags b)) (tagsColl st)) as [tagIds coll1].
    cbn [snd posts]. unfold Post_save. rewrite lookup_insert_ne; [exact Hj|].
    intros Heq. rewrite <- Heq, newObjectId_fresh in Hj. discriminate Hj.
  - intros o j Hne. split.
    + unfold update_post, Post_findById. destruct (postValidation b); [|reflexivity].
      destruct (posts st !! o) as [post|]; [|reflexivity].
      destruct (negb (is_author post user)); [reflexivity|].
      destruct (processTags (tagNames (b_tags b)) (tagsColl st)) as [tagIds coll1].
      cbn [snd posts]. unfold Post_save. apply lookup_insert_ne. congruence.
    + unfold like_post, Post_findById.
      destruct (posts st !! o) as [post|]; [|reflexivity].
      destruct (negb (is_published post)); [reflexivity|].
      cbn [snd posts]. unfold Post_save. apply lookup_insert_ne. congruence.
  - intros s. split; [|reflexivity].
    unfold update_post. now destruct (postValidation b).
Qed.

(** ** Drafts *)

(** X10: a read of a post that is not published, by a reader who is no admin,
    is answered exactly as a read of a post that does not exist, and
    changes nothing; an admin gets the post, again with no change. *)
Theorem get_post_hides_drafts (st : Store) (user : option User) (id : IdParam) :
  (find_by_id_or_slug st id = None → get_post st user id = (not_found, st)) ∧
  (∀ (o : ObjectId) (post : Post),
     find_by_id_or_slug st id = Some (o, post) →
     status post ≠ Some "published"%string →
     (is_admin user = false → get_post st user id = (not_found, st)) ∧
     (is_admin user = true →
      get_post st user id
      = (Json 200 (PostJson None o post (populate_tags (tagsColl st) (tags post))), st))).
Proof.
  split.
  - intros Hnone. unfold get_post. now rewrite Hnone.
  - intros o post Hfind Hnot. unfold get_post, is_published. rewrite Hfind.
    rewrite (bool_decide_eq_false_2 _ Hnot). cbn [negb andb].
    split; intros ->; reflexivity.
Qed.

Lemma get_post_hides_drafts_witness :
  get_post Scenario.draft_store (Some Scenario.bob) (ValidId 0%nat)
  = (not_found, Scenario.draft_store) ∧
  get_post Scenario.draft_store None (ValidId 5%nat) = (not_found, Scenario.draft_store).
Proof.
  split.
  - destruct (get_post_hides_drafts Scenario.draft_store (Some Scenario.bob) (ValidId 0%nat))
      as [_ Hdraft].
    destruct (Hdraft 0%nat Scenario.draft_post) as [Hhide _].
    + vm_compute. reflexivity.
    + vm_compute. intros H. discriminate H.
    + apply Hhide. vm_compute. reflexivity.
  - apply (proj1 (get_post_hides_drafts Scenario.draft_store None (ValidId 5%nat))).
    vm_compute. reflexivity.
Defined.

(** ** The list route *)

Import ListRoute.

Lemma ceil_div_bounds (a b : Z) :
  0 < b → 0 ≤ a →
  a ≤ ceil_div a b * b ∧ (ceil_div a b - 1) * b < a ∧ 0 ≤ ceil_div a b.
Proof.
  intros Hb Ha. unfold ceil_div.
  pose proof (Z.div_mod (a + b - 1) b ltac:(lia)) as Hdm.
  pose proof (Z.mod_pos_bound (a + b - 1) b Hb) as Hm.
  pose proof (Z.div_pos (a + b - 1) b ltac:(lia) Hb) as Hnn.
  remember ((a + b - 1) / b) as c. remember ((a + b - 1) mod b) as r.
  replace (c * b) with (b * c) by ring.
  replace ((c - 1) * b) with (b * c - b) by ring.
  clear Heqc Heqr. repeat split; lia.
Qed.

Lemma ceil_div_lt (a b k : Z) :
  0 < b → 0 ≤ a → (k < ceil_div a b ↔ k * b < a).
Proof.
  intros Hb Ha. destruct (ceil_div_bounds a b Hb Ha) as (Hup & Hlow & Hnn).
  remember (ceil_div a b) as c eqn:Hc. clear Hc. split; intros H.
  - nia.
  - destruct (Z_lt_le_dec k c) as [Hlt|Hge]; [exact Hlt|]. exfalso. nia.
Qed.

Lemma check_int_valid (q : QueryInt) (min : Z) (max : option Z) (message : string)
    (fallback : Z) :
  check_int q min max message = [] →
  min ≤ fallback → (∀ m, max = Some m → fallback ≤ m) → 0 < min →
  min ≤ parseInt_or q fallback ∧ (∀ m, max = Some m → parseInt_or q fallback ≤ m).
Proof.
  intros Hcheck Hlo Hhi Hpos. destruct q as [|z|s]; cbn in *; [now split| |discriminate].
  destruct (min <=? z) eqn:E1; [|discriminate]. apply Z.leb_le in E1.
  assert (z ≠ 0) by lia. rewrite (proj2 (Z.eqb_neq z 0)) by assumption.
  split; [exact E1|]. intros m ->. cbn in Hcheck.
  destruct (z <=? m) eqn:E2; [now apply Z.leb_le in E2 | discriminate].
Qed.

(** A query that passes validation asks for a page from 1 on and for 1 to
    50 posts a page. *)
Lemma listValidation_bounds (q : ListQuery) :
  listValidation q = [] →
  1 ≤ parseInt_or (q_page q) 1 ∧ 1 ≤ parseInt_or (q_limit q) 10 ≤ 50.
Proof.
  unfold listValidation. intros H.
  apply app_eq_nil in H as [Hp H]. apply app_eq_nil in H as [Hl _].
  destruct (check_int_valid _ _ _ _ 1 Hp) as [Hp1 _]; [lia|discriminate|lia|].
  destruct (check_int_valid _ _ _ _ 10 Hl) as [Hl1 Hl2];
    [lia | intros m Hm; inversion Hm; lia | lia |].
  specialize (Hl2 50 eq_refl). lia.
Qed.

Lemma pages_concat {A} (L : nat) (n : nat) :
  ∀ l : list A,
    (List.length l ≤ n * L)%nat →
    List.concat (List.map (fun k => take L (drop (k * L) l)) (seq 0 n)) = l.
Proof.
  induction n as [|n IH]; intros l Hlen.
  - destruct l; [reflexivity | cbn in Hlen; lia].
  - cbn [seq List.map List.concat]. rewrite <- seq_shift, List.map_map.
    change (0 * L)%nat with 0%nat. rewrite drop_0.
    rewrite <- (take_drop L l) at 2. f_equal.
    rewrite <- (IH (drop L l)) at 1; [|rewrite length_drop; cbn in Hlen; lia].
    f_equal. apply List.map_ext. intros k. rewrite drop_drop. reflexivity.
Qed.

Lemma take_drop_nonempty {A} (L s : nat) (l : list A) :
  (0 < L)%nat → (take L (drop s l) ≠ [] ↔ (s < List.length l)%nat).
Proof.
  intros HL. split.
  - intros Hne. destruct (Nat.lt_ge_cases s (List.length l)) as [Hlt|Hge]; [exact Hlt|].
    rewrite drop_ge in Hne by exact Hge. now destruct L.
  - intros Hlt Hnil. apply (f_equal (@List.length A)) in Hnil.
    rewrite length_take, length_drop in Hnil. cbn in Hnil. lia.
Qed.

Lemma fmap_concat {A B} (f : A → B) (ls : list (list A)) :
  f <$> List.concat ls = List.concat (List.map (fmap f) ls).
Proof.
  induction ls as [|l ls IH]; [reflexivity|].
  cbn [List.concat List.map]. now rewrite fmap_app, IH.
Qed.

Section ListProperties.

Variable tag_slug : Tag → string.
Variable text_matches : string → Post → bool.
Variable sorted : string → list (ObjectId * Post) → list (ObjectId * Post).

(** X12: every post of a listed page is a published post of the store, shown
    without its content, and a page holds no more posts than the limit,
    which is 50 at most: provided the sort only reorders what the query
    matches. *)
Theorem list_posts_published_only (st : Store) (q : ListQuery) :
  (∀ k l d, d ∈ sorted k l → d ∈ l) →
  listValidation q = [] →
  ∃ pg : Page,
    list_posts tag_slug text_matches sorted st q = ListJson pg ∧
    Forall (fun d => ∃ p : Post,
                posts st !! fst d = Some p ∧ status p = Some "published"%string ∧
                d = without_content (fst d, p))
           (page_posts pg) ∧
    Z.of_nat (List.length (page_posts pg)) ≤ parseInt_or (q_limit q) 10 ∧
    parseInt_or (q_limit q) 10 ≤ 50.
Proof.
  intros Hsub Hvalid. destruct (listValidation_bounds q Hvalid) as (Hpage & Hlimit & Hmax).
  assert (Hpg : ∀ tagId,
    Forall (fun d => ∃ p : Post,
                posts st !! fst d = Some p ∧ status p = Some "published"%string ∧
                d = without_content (fst d, p))
           (page_posts (list_page text_matches sorted st q tagId)) ∧
    Z.of_nat (List.length (page_posts (list_page text_matches sorted st q tagId)))
    ≤ parseInt_or (q_limit q) 10).
  { intros tagId. unfold list_page. cbn [page_posts]. split.
    - apply Forall_forall. intros d Hd.
      apply list_elem_of_fmap in Hd as ([o p] & -> & Hin).
      assert (Hfound : (o, p) ∈ find_sorted text_matches sorted st tagId
                          (given (q_search q)) (default "newest"%string (q_sort q))).
      { apply list_elem_of_lookup. apply list_elem_of_lookup in Hin as [i Hi].
        rewrite lookup_take_Some in Hi. destruct Hi as [Hi _].
        rewrite lookup_drop in Hi. eauto. }
      unfold find_sorted in Hfound. apply Hsub in Hfound.
      apply list_elem_of_In, filter_In in Hfound as [Hmem Hmatch].
      apply list_elem_of_In, elem_of_map_to_list in Hmem.
      unfold matches_query in Hmatch. cbn [snd] in Hmatch.
      apply andb_true_iff in Hmatch as [Hmatch _]. apply andb_true_iff in Hmatch as [Hpub _].
      apply bool_decide_eq_true in Hpub.
      exists p. cbn [fst]. repeat split; assumption.
    - rewrite length_fmap, length_take. lia. }
  unfold list_posts. rewrite Hvalid.
  destruct (given (q_tag q)) as [tag|].
  - destruct (Tag_findOne_slug tag_slug (tagsColl st) tag) as [[i t]|].
    + eexists. split; [reflexivity|]. destruct (Hpg (Some i)) as [H1 H2]. repeat split; assumption.
    + eexists. split; [reflexivity|]. cbn [page_posts]. split; [constructor|]. cbn. lia.
  - eexists. split; [reflexivity|]. destruct (Hpg None) as [H1 H2]. repeat split; assumption.
Qed.

(** X13: for a limit from 1 on, the pages 1 to [totalPages] of a query, one
    after the other, are exactly the posts the query matches, in their
    order, each once; and a page beyond the last is empty. *)
Theorem list_pages_partition (st : Store) (tagId : option ObjectId) (limit : Z)
    (tag search sort : option string) :
  1 ≤ limit →
  List.concat
    (List.map (fun k => page_posts (list_page text_matches sorted st
                                      (page_query (Z.of_nat k + 1) limit tag search sort)
                                      tagId))
       (seq 0 (Z.to_nat (totalPages (list_page text_matches sorted st
                                       (page_query 1 limit tag search sort) tagId)))))
  = without_content <$> find_sorted text_matches sorted st tagId (given search)
                          (default "newest"%string sort) ∧
  ∀ k : Z,
    totalPages (list_page text_matches sorted st (page_query 1 limit tag search sort) tagId)
    < k →
    page_posts (list_page text_matches sorted st (page_query k limit tag search sort) tagId)
    = [].
Proof.
  intros Hlimit. unfold list_page, page_query.
  cbn [q_page q_limit q_search q_sort page_posts totalPages parseInt_or].
  assert (Hl0 : (limit =? 0) = false) by (apply Z.eqb_neq; lia). rewrite Hl0.
  set (found := find_sorted text_matches sorted st tagId (given search)
                  (default "newest"%string sort)).
  destruct (ceil_div_bounds (Z.of_nat (List.length found)) limit ltac:(lia) ltac:(lia))
    as (Hup & Hlow & Hnn).
  split.
  - rewrite <- (pages_concat (Z.to_nat limit)
                  (Z.to_nat (ceil_div (Z.of_nat (List.length found)) limit)) found) at 2 by nia.
    rewrite fmap_concat. f_equal. rewrite List.map_map. apply List.map_ext. intros k.
    assert (Hk : (Z.of_nat k + 1 =? 0) = false) by (apply Z.eqb_neq; lia). rewrite Hk.
    do 3 f_equal. nia.
  - intros k Hk.
    assert (Hk0 : (k =? 0) = false) by (apply Z.eqb_neq; lia). rewrite Hk0.
    rewrite drop_ge, take_nil; [reflexivity|]. nia.
Qed.

(** X14: for a page from 1 on and a limit from 1 on, [hasNextPage] is true
    exactly when the next page has a post, and [hasPrevPage] exactly when
    the page is not the first. *)
Theorem list_page_flags (st : Store) (tagId : option ObjectId) (k limit : Z)
    (tag search sort : option string) :
  1 ≤ k → 1 ≤ limit →
  (hasNextPage (list_page text_matches sorted st (page_query k limit tag search sort) tagId)
   = true
   ↔ page_posts (list_page text_matches sorted st
                   (page_query (k + 1) limit tag search sort) tagId) ≠ []) ∧
  (hasPrevPage (list_page text_matches sorted st (page_query k limit tag search sort) tagId)
   = true ↔ 1 < k).
Proof.
  intros Hk Hlimit. unfold list_page, page_query.
  cbn [q_page q_limit q_search q_sort page_posts hasNextPage hasPrevPage parseInt_or].
  assert (Hl0 : (limit =? 0) = false) by (apply Z.eqb_neq; lia).
  assert (Hk0 : (k =? 0) = false) by (apply Z.eqb_neq; lia).
  assert (Hk1 : (k + 1 =? 0) = false) by (apply Z.eqb_neq; lia).
  rewrite Hl0, Hk0, Hk1.
  set (found := find_sorted text_matches sorted st tagId (given search)
                  (default "newest"%string sort)).
  split; [|apply Z.ltb_lt].
  rewrite Z.ltb_lt, ceil_div_lt by lia.
  split.
  - intros Hlt Hnil. apply fmap_nil_inv in Hnil. revert Hnil.
    apply take_drop_nonempty; [lia | nia].
  - intros Hne.
    destruct (Z_lt_le_dec (k * limit) (Z.of_nat (List.length found))) as [Hlt|Hge];
      [exact Hlt|]. exfalso. apply Hne.
    rewrite drop_ge, take_nil; [reflexivity | nia].
Qed.

End ListProperties.

Lemma list_posts_published_only_witness :
  ∃ pg : Page,
    list_posts ListScenario.slug_of_name ListScenario.in_title ListScenario.natural_order
      Scenario.go_rust_store ListScenario.first_page = ListJson pg ∧
    Z.of_nat (List.length (page_posts pg)) ≤ 10.
Proof.
  destruct (list_posts_published_only ListScenario.slug_of_name ListScenario.in_title
              ListScenario.natural_order Scenario.go_rust_store ListScenario.first_page)
    as (pg & Hpg & _ & Hlen & _).
  - intros k l d Hd. exact Hd.
  - vm_compute. reflexivity.
  - exists pg. split; [exact Hpg | exact Hlen].
Defined.

Lemma list_pages_partition_witness :
  List.concat
    (List.map (fun k => page_posts (list_page ListScenario.in_title ListScenario.natural_order
                                      Scenario.go_rust_store
                                      (page_query (Z.of_nat k + 1) 1 None None None) None))
       (seq 0 (Z.to_nat (totalPages (list_page ListScenario.in_title
                                       ListScenario.natural_order Scenario.go_rust_store
                                       (page_query 1 1 None None None) None)))))
  = without_content <$> find_sorted ListScenario.in_title ListScenario.natural_order
                          Scenario.go_rust_store None None "newest".
Proof.
  apply (list_pages_partition ListScenario.in_title ListScenario.natural_order
           Scenario.go_rust_store None 1 None None None).
  lia.
Defined.

Lemma list_page_flags_witness :
  hasPrevPage (list_page ListScenario.in_title ListScenario.natural_order
                 Scenario.go_rust_store (page_query 2 5 None None None) None) = true ↔ 1 < 2.
Proof.
  apply (list_page_flags ListScenario.in_title ListScenario.natural_order
           Scenario.go_rust_store None 2 5 None None None); lia.
Defined.

Lemma handlers_write_one_post_witness :
  posts (snd (update_post Scenario.go_rust_store Scenario.alice (ValidId 0%nat) None
                (Scenario.body_with None))) !! 3%nat
  = posts Scenario.go_rust_store !! 3%nat.
Proof.
  destruct (handlers_write_one_post Scenario.go_rust_store Scenario.alice None
              (Scenario.body_with None)) as (_ & Hother & _).
  apply (Hother 0%nat 3%nat). lia.
Defined.

(** ** The client *)

Import Client.

Lemma app_String (a : ascii) (p r : string) : String a p +:+ r = String a (p +:+ r).
Proof. reflexivity. Qed.

Lemma strip_prefix_app (p r : string) : strip_prefix p (p +:+ r) = Some r.
Proof.
  induction p as [|a p IH]; [reflexivity|].
  rewrite app_String. cbn [strip_prefix]. now rewrite bool_decide_eq_true_2.
Qed.

Lemma all_alnum_app (a b : string) : all_alnum (a +:+ b) = all_alnum a && all_alnum b.
Proof.
  induction a as [|c a IH]; [reflexivity|].
  rewrite app_String. cbn [all_alnum]. rewrite IH. now rewrite andb_assoc.
Qed.

Lemma has_char_app (c : ascii) (a b : string) :
  has_char c (a +:+ b) = has_char c a || has_char c b.
Proof.
  induction a as [|x a IH]; [reflexivity|].
  rewrite app_String. cbn [has_char]. rewrite IH. now rewrite orb_assoc.
Qed.

Lemma all_alnum_has_char (c : ascii) (s : string) :
  is_alnum c = false → all_alnum s = true → has_char c s = false.
Proof.
  intros Hc. induction s as [|a s IH]; [reflexivity|].
  cbn. intros H. apply andb_true_iff in H as [Ha Hs].
  rewrite (IH Hs), orb_false_r. apply bool_decide_eq_false_2.
  intros ->. rewrite Hc in Ha. discriminate Ha.
Qed.

Lemma startsWith_true (p s : string) :
  startsWith p s = true → ∃ r : string, s = p +:+ r.
Proof.
  revert s. induction p as [|a p IH]; intros s H; [now exists s|].
  destruct s as [|b s]; [discriminate H|]. cbn in H.
  apply andb_true_iff in H as [Hab Hps]. apply bool_decide_eq_true in Hab. subst b.
  destruct (IH s Hps) as [r ->]. exists r. reflexivity.
Qed.

(** A string of letters and digits holds no needle that starts with a
    slash. *)
Lemma includes_slash_alnum (r s : string) :
  all_alnum s = true → includes (String "/"%char r) s = false.
Proof.
  induction s as [|a s IH]; [reflexivity|].
  intros H. cbn in H. apply andb_true_iff in H as [Ha Hs].
  cbn [includes startsWith]. rewrite (IH Hs), orb_false_r.
  apply andb_false_iff. left. apply bool_decide_eq_false_2.
  intros <-. discriminate Ha.
Qed.

Lemma startsWith_not_alnum (p s : string) :
  all_alnum p = false → all_alnum s = true → startsWith p s = false.
Proof.
  intros Hp Hs. destruct (startsWith p s) eqn:E; [|reflexivity].
  apply startsWith_true in E as [r ->].
  rewrite all_alnum_app, Hp in Hs. discriminate Hs.
Qed.

Lemma isPublicEndpoint_post_url (id : string) :
  all_alnum id = true → truthy id = true → isPublicEndpoint (post_url id) = true.
Proof.
  intros Hid Hne. unfold isPublicEndpoint, post_url, matches_id_path.
  now rewrite strip_prefix_app, Hid, Hne.
Qed.

Lemma isPublicEndpoint_like_url (id : string) :
  all_alnum id = true → isPublicEndpoint (like_url id) = false.
Proof.
  intros Hid. unfold isPublicEndpoint, like_url, matches_id_path.
  rewrite strip_prefix_app, all_alnum_app, andb_false_r.
  change (strip_prefix "/comments/" ("/posts/" +:+ id +:+ "/like")) with (@None string).
  cbn [existsb publicEndpoints].
  assert (Hq : has_char "?"%char (id +:+ "/like") = false)
    by (rewrite has_char_app, (all_alnum_has_char "?"%char id eq_refl Hid); reflexivity).
  assert (H1 : bool_decide ("/posts/" +:+ id +:+ "/like" = "/posts"%string) = false)
    by (apply bool_decide_eq_false_2; intros H; discriminate H).
  assert (H2 : startsWith ("/posts" +:+ "?") ("/posts/" +:+ id +:+ "/like") = false)
    by reflexivity.
  assert (H3 : bool_decide ("/posts/" +:+ id +:+ "/like" = "/posts/recent"%string) = false).
  { apply bool_decide_eq_false_2. intros H.
    apply (f_equal (strip_prefix "/posts/")) in H. rewrite strip_prefix_app in H.
    change (strip_prefix "/posts/" "/posts/recent") with (Some "recent"%string) in H.
    assert (Hs : id +:+ "/like" = "recent"%string) by congruence.
    apply (f_equal (has_char "/"%char)) in Hs. rewrite has_char_app in Hs.
    rewrite orb_true_r in Hs. discriminate Hs. }
  assert (H4 : startsWith ("/posts/recent" +:+ "?") ("/posts/" +:+ id +:+ "/like") = false).
  { destruct (startsWith ("/posts/recent" +:+ "?") ("/posts/" +:+ id +:+ "/like")) eqn:E;
      [|reflexivity].
    apply startsWith_true in E as [r Hr].
    apply (f_equal (strip_prefix "/posts/")) in Hr. rewrite strip_prefix_app in Hr.
    change (strip_prefix "/posts/" (("/posts/recent" +:+ "?") +:+ r))
      with (Some ("recent?" +:+ r)) in Hr.
    assert (Hs : id +:+ "/like" = "recent?" +:+ r) by congruence.
    apply (f_equal (has_char "?"%char)) in Hs. rewrite Hq in Hs. discriminate Hs. }
  rewrite H1, H2, H3, H4, andb_false_r. reflexivity.
Qed.

Lemma request_interceptor_public (env : Env) (stored : option string) (config : RequestConfig)
    (u : string) :
  config_url config = Some u → truthy u = true → isPublicEndpoint u = true →
  request_interceptor env stored config = config.
Proof.
  intros Hu Ht Hp. unfold request_interceptor. rewrite Hu. cbn [truthy_opt default].
  rewrite Ht. cbv iota. unfold id. now rewrite Hp.
Qed.

Lemma request_interceptor_token (env : Env) (token : string) (auth : option string)
    (u : string) :
  truthy u = true → isPublicEndpoint u = false → truthy token = true →
  request_interceptor env (Some token) {| config_url := Some u; Authorization := auth |}
  = {| config_url := Some u; Authorization := Some ("Bearer " +:+ token) |}.
Proof.
  intros Ht Hp Htok. unfold request_interceptor. cbn [config_url truthy_opt default].
  rewrite Ht. cbv iota. unfold id. rewrite Hp, Htok. cbn [negb andb default truthy_opt].
  now rewrite Htok.
Qed.

(** X19: the request interceptor sends a request for [/posts] or for
    [/posts/<id>], where the id is letters and digits, as it is, without
    the token, whatever is stored: these are the urls of the create, update
    and delete calls as well as of the reads. A like request gets the
    stored token. *)
Theorem interceptor_token (env : Env) (stored auth : option string) (id token : string) :
  all_alnum id = true → truthy id = true → truthy token = true →
  request_interceptor env stored {| config_url := Some posts_url; Authorization := auth |}
  = {| config_url := Some posts_url; Authorization := auth |} ∧
  request_interceptor env stored {| config_url := Some (post_url id); Authorization := auth |}
  = {| config_url := Some (post_url id); Authorization := auth |} ∧
  request_interceptor env (Some token)
    {| config_url := Some (like_url id); Authorization := auth |}
  = {| config_url := Some (like_url id); Authorization := Some ("Bearer " +:+ token) |}.
Proof.
  intros Hid Hne Htok. split; [reflexivity|]. split.
  - apply (request_interceptor_public _ _ _ (post_url id));
      [reflexivity | reflexivity | now apply isPublicEndpoint_post_url].
  - apply request_interceptor_token;
      [reflexivity | now apply isPublicEndpoint_like_url | exact Htok].
Qed.

Lemma interceptor_token_witness :
  request_interceptor {| env_PROD := true; env_DEV := false; VITE_API_URL := None;
                         VITE_DEV_TOKEN := None |} (Some "jwt"%string)
    {| config_url := Some (post_url "64a1f0"); Authorization := None |}
  = {| config_url := Some (post_url "64a1f0"); Authorization := None |}.
Proof.
  apply (interceptor_token _ (Some "jwt"%string) None "64a1f0" "jwt"); reflexivity.
Defined.

(** X20: the tags the client sends as an array reach the tag loop of the server
    trimmed, one name for each element, when no element holds a comma: the
    form carries their join, and the server splits and trims it. An empty
    array resolves to no tag. *)
Theorem client_tags_reach_the_loop (names : list string) (coll : gmap ObjectId Tag) :
  Forall (fun x => has_char ","%char x = false) names →
  processTags (tagNames (Some (TagsString (createPost_tags (ClientArray names))))) coll
  = processTags (List.map trim names) coll ∧
  processTags (tagNames (Some (TagsString (updatePost_tags (ClientArray names))))) coll
  = processTags (List.map trim names) coll.
Proof.
  intros Hall.
  assert (H : processTags (List.map trim (split ","%char (join ","%char names))) coll
              = processTags (List.map trim names) coll).
  { destruct names as [|n ns]; [reflexivity|].
    rewrite split_join; [reflexivity | discriminate | exact Hall]. }
  split; exact H.
Qed.

Lemma client_tags_reach_the_loop_witness :
  processTags (tagNames (Some (TagsString
                 (createPost_tags (ClientArray ["Go"; "go"; " GO "]%string))))) ∅
  = processTags ["Go"; "go"; "GO"]%string ∅.
Proof.
  apply (client_tags_reach_the_loop ["Go"; "go"; " GO "]%string ∅).
  repeat constructor.
Defined.

Lemma includes_auth_post_url (id : string) :
  all_alnum id = true →
  includes "/auth/me" (post_url id) = false ∧ includes "/auth/profile" (post_url id) = false.
Proof.
  intros Hid. unfold post_url. split.
  - change (includes "/auth/me" ("/posts/" +:+ id))
      with (startsWith "auth/me" id || includes "/auth/me" id).
    now rewrite (startsWith_not_alnum "auth/me" id eq_refl Hid), includes_slash_alnum.
  - change (includes "/auth/profile" ("/posts/" +:+ id))
      with (startsWith "auth/profile" id || includes "/auth/profile" id).
    now rewrite (startsWith_not_alnum "auth/profile" id eq_refl Hid), includes_slash_alnum.
Qed.

(** X21: an error answer to a request for a post, whatever its status, leaves
    the stored token, the stored user and the location as they are; so
    does any answer whose status is not 401. A 401 answer to the profile
    request clears both entries and sends the window to the login page. *)
Theorem response_error_session (br : Browser) (status : option nat) (url : option string)
    (id : string) :
  all_alnum id = true →
  response_error br status (Some (post_url id)) = br ∧
  (status ≠ Some 401%nat → response_error br status url = br) ∧
  response_error br (Some 401%nat) (Some "/auth/me"%string)
  = {| stored_token := None; stored_user := None; location_href := "/login" |}.
Proof.
  intros Hid. split; [|split; [|reflexivity]].
  - unfold response_error. destruct (bool_decide (status = Some 401%nat)); [|reflexivity].
    cbn [truthy_opt default]. assert (Hu : truthy (post_url id) = true) by reflexivity.
    rewrite Hu. cbv iota. unfold Datatypes.id.
    destruct (includes_auth_post_url _ Hid) as [-> ->]. reflexivity.
  - intros Hne. unfold response_error. now rewrite bool_decide_eq_false_2.
Qed.

Lemma response_error_session_witness :
  response_error {| stored_token := Some "jwt"%string; stored_user := Some "alice"%string;
                    location_href := "/posts/64a1f0" |}
    (Some 401%nat) (Some (post_url "64a1f0"))
  = {| stored_token := Some "jwt"%string; stored_user := Some "alice"%string;
       location_href := "/posts/64a1f0" |}.
Proof.
  apply (proj1 (response_error_session _ (Some 401%nat) None "64a1f0" eq_refl)).
Defined.

(** ** The AI routes *)

Import AiRoutes.

(** X16: an accepted improve-title request to an available service is answered
    with the first title the service suggests, and with the trimmed title
    of the request itself when the service suggests none. *)
Theorem improve_title_falls_back (ai : AiService) (title : option string) :
  check_length title 3 None "Title is required" = [] →
  isAvailable ai = true →
  ∃ (t : string) (alternatives : option (list string)),
    improve_title ai title = AiJson 200 (AiTitle t alternatives) ∧
    alternatives = generateSEOTitles ai (trim (default EmptyString title)) 3 ∧
    ((∃ rest, alternatives = Some (t :: rest)) ∨
     ((alternatives = None ∨ alternatives = Some []) ∧ t = trim (default EmptyString title))) ∧
    (alternatives = None ∨ alternatives = Some [] → (3 ≤ String.length t)%nat).
Proof.
  intros Hvalid Hav. unfold improve_title. rewrite Hvalid, Hav. cbn [negb].
  eexists _, _. split; [reflexivity|]. split; [reflexivity|].
  assert (Hlen : (3 ≤ String.length (trim (default EmptyString title)))%nat).
  { unfold check_length in Hvalid.
    destruct (3 <=? String.length (trim (default EmptyString title)))%nat eqn:E;
      [now apply Nat.leb_le in E | discriminate Hvalid]. }
  destruct (generateSEOTitles ai (trim (default EmptyString title)) 3) as [[|t rest]|].
  - split; [right; split; [now right | reflexivity] | intros _; exact Hlen].
  - split; [left; now exists rest | intros [H|H]; discriminate H].
  - split; [right; split; [now left | reflexivity] | intros _; exact Hlen].
Qed.

Lemma improve_title_falls_back_witness :
  ∃ (t : string) (alternatives : option (list string)),
    improve_title echo_service (Some "  Hello  "%string) = AiJson 200 (AiTitle t alternatives) ∧
    alternatives = Some [] ∧ t = "Hello"%string.
Proof.
  destruct (improve_title_falls_back echo_service (Some "  Hello  "%string))
    as (t & alts & Hres & Halts & _).
  - vm_compute. reflexivity.
  - reflexivity.
  - exists t, alts. split; [exact Hres|]. vm_compute in Hres.
    inversion Hres; subst. split; reflexivity.
Defined.



(** ** The catch branches, continued *)

(** X17: a cast error (an id that is no ObjectId) is answered with 404 and the
    fixed text, in every environment, by the routes that read, update,
    delete and like a post; the summarize route, which looks the post up
    in the same way, answers it with 500. *)
Theorem catch_cast_error (node_env : option string) (e : JsError) :
  err_name e = "CastError"%string →
  Catch.catch_response GetPost node_env e = Json 404 (Message "Post not found") ∧
  Catch.catch_response UpdatePost node_env e = Json 404 (Message "Post not found") ∧
  Catch.catch_response DeletePost node_env e = Json 404 (Message "Post not found") ∧
  Catch.catch_response LikePost node_env e = Json 404 (Message "Post not found") ∧
  res_code (Catch.catch_response SummarizePost node_env e) = 500%nat.
Proof.
  intros Hname. cbn. unfold Catch.cast_or_failed, Catch.is_CastError.
  rewrite (bool_decide_eq_true_2 _ Hname). repeat split.
Qed.

Lemma catch_cast_error_witness :
  Catch.catch_response LikePost (Some "production"%string)
    {| err_name := "CastError"; err_message := "Cast to ObjectId failed";
       err_stack := "CastError: Cast to ObjectId failed" |}
  = Json 404 (Message "Post not found").
Proof.
  apply (catch_cast_error (Some "production"%string)
           {| err_name := "CastError"; err_message := "Cast to ObjectId failed";
              err_stack := "CastError: Cast to ObjectId failed" |}).
  reflexivity.
Defined.



(** ** What a create request stores and answers *)

Lemma app_inv_prefix (a b c : string) : a +:+ b = a +:+ c → b = c.
Proof.
  induction a as [|x a IH]; [intros H; exact H|].
  rewrite !app_String. intros H. inversion H. now apply IH.
Qed.

(** Two posts of one title get different slugs. *)
Lemma unique_slug_same_title (i j : ObjectId) (t : string) :
  unique_slug i t = unique_slug j t → i = j.
Proof.
  unfold unique_slug, ObjectId_toString. intros H.
  apply app_inv_prefix, app_inv_prefix in H. now apply (inj pretty).
Qed.




